(** * FlashBott: the chat-orchestration core of [server.js]

    A shallow embedding of the [/api/chat] handler of [server.js]:
    [buildHistoryForGemini], [retryWithBackoff], the cached-model probe and
    the candidate walk, the chat / flattened-prompt invocation and the error
    classification of the outer [catch].  Upstream calls of the Gemini SDK
    are answered by an oracle that sees the whole trace of earlier calls. *)

From Stdlib Require Import String Ascii List ZArith Lia Bool.
Import ListNotations.
Open Scope string_scope.
Open Scope Z_scope.

(** ** JavaScript string helpers *)

(** [s.startsWith(p)] *)
Fixpoint startsWith (s p : string) {struct p} : bool :=
  match p, s with
  | EmptyString, _ => true
  | String c p', String d s' => Ascii.eqb c d && startsWith s' p'
  | String _ _, EmptyString => false
  end.

(** [s.includes(sub)]: [sub] occurs at some index of [s]. *)
Fixpoint includes (s sub : string) : bool :=
  startsWith s sub ||
  match s with
  | EmptyString => false
  | String _ s' => includes s' sub
  end.

(** The white space removed by [String.prototype.trim] (its one-byte part). *)
Definition is_ws (c : ascii) : bool :=
  let n := nat_of_ascii c in
  (Nat.eqb n 32 || Nat.eqb n 9 || Nat.eqb n 10 || Nat.eqb n 11
   || Nat.eqb n 12 || Nat.eqb n 13 || Nat.eqb n 160)%bool.

Fixpoint trimStart (s : string) : string :=
  match s with
  | EmptyString => EmptyString
  | String c s' => if is_ws c then trimStart s' else s
  end.

Fixpoint rev_str (s : string) (acc : string) : string :=
  match s with
  | EmptyString => acc
  | String c s' => rev_str s' (String c acc)
  end.

(** [s.trim()] *)
Definition trim (s : string) : string :=
  rev_str (trimStart (rev_str (trimStart s) EmptyString)) EmptyString.

(** [xs.join(sep)] *)
Fixpoint join (sep : string) (xs : list string) : string :=
  match xs with
  | [] => EmptyString
  | [x] => x
  | x :: xs' => x ++ sep ++ join sep xs'
  end.

(** [xs.slice(-k)] for [k > 0]: the last [k] elements. *)
Definition slice_last {A} (k : nat) (xs : list A) : list A :=
  skipn (length xs - k) xs.

(** ** Errors and outcomes *)

(** A thrown JavaScript error; only its [message] property is read. *)
Record Error := mkError { message : option string }.

Definition err (m : string) : Error := mkError (Some m).

(** Result of an awaited call: resolves with a value or rejects. *)
Inductive exc (A : Type) : Type :=
| Ok (a : A)
| Exc (e : Error).
Arguments Ok {A} a.
Arguments Exc {A} e.

(** [e.message?.includes(sub)], [undefined] being falsy. *)
Definition msg_includes (e : Error) (sub : string) : bool :=
  match message e with
  | Some m => includes m sub
  | None => false
  end.

(** ** [retryWithBackoff] (server.js, lines 61-79)

    Generic in the state threaded through [fn] and in the effect of
    [await new Promise(resolve => setTimeout(resolve, delay))]. *)

(** What the [for] loop ends with: a [return], a [throw], or falling off
    the end of the loop (the function then returns [undefined]). *)
Inductive retry_result (A : Type) : Type :=
| Returned (a : A)
| Threw (e : Error)
| FellThrough.
Arguments Returned {A} a.
Arguments Threw {A} e.
Arguments FellThrough {A}.

(** [isOverloaded] of [retryWithBackoff] (lines 66-68). *)
Definition isOverloaded (e : Error) : bool :=
  msg_includes e "503" || msg_includes e "overloaded"
  || msg_includes e "Service Unavailable".

Section Retry.
Context {St A : Type}.
(** [await sleep(delay)] *)
Variable sleep : Z -> St -> St.
(** [await fn()] *)
Variable fn : St -> exc A * St.
Variables maxRetries baseDelay : Z.

(** The loop from [attempt] on; [fuel] only bounds the recursion, the
    loop test is [attempt < maxRetries] as in the source. *)
Fixpoint retry_loop (fuel : nat) (attempt : nat) (s : St)
  : retry_result A * St :=
  match fuel with
  | O => (FellThrough, s)
  | S fuel' =>
      if Z.of_nat attempt <? maxRetries then
        match fn s with
        | (Ok v, s1) => (Returned v, s1)
        | (Exc error, s1) =>
            if isOverloaded error && (Z.of_nat attempt <? maxRetries - 1)
            then
              let delay := baseDelay * 2 ^ Z.of_nat attempt in
              retry_loop fuel' (S attempt) (sleep delay s1)
            else (Threw error, s1)
        end
      else (FellThrough, s)
  end.

Definition retryWithBackoff (s : St) : retry_result A * St :=
  retry_loop (Z.to_nat maxRetries) 0 s.
End Retry.

(** ** [buildHistoryForGemini] (server.js, lines 22-38) *)

Record Message := mkMessage { sender : string; text : string }.

(** [{ role, parts: [{ text }] }] *)
Record Turn := mkTurn { role : string; part_text : string }.

(** [history] is [None] when it is [null] or [undefined]
    ([history || []]). *)
Definition buildHistoryForGemini (history : option (list Message))
    (newMessage : string) : list Turn :=
  let hist := match history with Some h => h | None => [] end in
  let chatHistory :=
    fold_left
      (fun acc msg =>
         if String.eqb (sender msg) "user" then
           (acc ++ [mkTurn "user" (text msg)])%list
         else if String.eqb (sender msg) "bot" then
           (acc ++ [mkTurn "model" (text msg)])%list
         else acc)
      hist [] in
  (chatHistory ++ [mkTurn "user" newMessage])%list.

(** The turn a history entry contributes, if any. *)
Definition turnOf (msg : Message) : list Turn :=
  if String.eqb (sender msg) "user" then [mkTurn "user" (text msg)]
  else if String.eqb (sender msg) "bot" then [mkTurn "model" (text msg)]
  else [].

(** The role a recognised sender maps to. *)
Definition roleOf (msg : Message) : string :=
  if String.eqb (sender msg) "user" then "user" else "model".

Definition recognised (msg : Message) : bool :=
  String.eqb (sender msg) "user" || String.eqb (sender msg) "bot".

(** ** The upstream service and the process state *)

(** The calls the handler makes through the Gemini SDK on a model handle. *)
Inductive upcall : Type :=
| GenerateContent (prompt : string)   (** [model.generateContent(prompt)] *)
| StartChat (history : list Turn)     (** [model.startChat({ history })] *)
| SendMessage (msg : string).         (** [chat.sendMessage(msg)] *)

(** A resolved call: [await result.response] gives a response whose
    [text()] returns the reply text or throws. *)
Inductive Response : Type :=
| RText (t : string)
| RTextThrows (e : Error).

(** Observable effects: an upstream call on the handle of a model name, or a
    backoff sleep. *)
Inductive event : Type :=
| Call (model : string) (c : upcall)
| Sleep (delay : Z).

(** The process-wide [cachedModelName] and the trace of effects so far. *)
Record world := mkWorld { cachedModelName : option string; trace : list event }.

(** The inbound request ([req.body]); [history] is [None] when it is not an
    array, [message] is [None] when it is absent. *)
Record Request := mkRequest {
  req_message : option string;
  req_history : option (list Message) }.

Inductive Body : Type :=
| Reply (reply : string)
| ErrorBody (error : string).

Record HttpResponse := mkHttpResponse { status : Z; body : Body }.

(** [const modelNames = [...]] (lines 82-89). *)
Definition modelNames : list string :=
  [ "gemini-2.5-flash"; "gemini-2.5-pro"; "gemini-flash-latest";
    "gemini-pro-latest"; "gemini-2.0-flash-001"; "gemini-2.0-flash" ].

Definition nl : string := String (ascii_of_nat 10) EmptyString.

(** The templates of the outer [catch] (lines 198-211). *)
Definition msgDefault := "Error communicating with Gemini API".
Definition msgOverloaded :=
  "The AI model is currently overloaded. Please try again in a few moments. The system will automatically retry with different models.".
Definition msgNotFound :=
  "Model not found. Please check your API key has access to the requested model.".
Definition msgUnauthorized :=
  "Invalid API key. Please check your GEMINI_API_KEY in .env file.".
Definition msgForbidden := "API key doesn't have permission to access this model.".
Definition msgRateLimited := "Rate limit exceeded. Please wait a moment before trying again.".

(** [errorMessage] computed in the outer [catch] (lines 198-213). *)
Definition errorMessageOf (e : Error) : string :=
  match message e with
  | None => msgDefault
  | Some m =>
      if String.eqb m "" then msgDefault
      else if includes m "503" || includes m "overloaded"
              || includes m "Service Unavailable" then msgOverloaded
      else if includes m "404" || includes m "not found" then msgNotFound
      else if includes m "401" || includes m "API key" then msgUnauthorized
      else if includes m "403" then msgForbidden
      else if includes m "429" || includes m "rate limit" then msgRateLimited
      else m
  end.

(** The error thrown when no model is found (line 146), from
    [lastError?.message || "Unknown"]. *)
Definition lastErrorText (lastError : option Error) : string :=
  match lastError with
  | Some e =>
      match message e with
      | Some m => if String.eqb m "" then "Unknown" else m
      | None => "Unknown"
      end
  | None => "Unknown"
  end.

Definition noModelMessage (lastError : option Error) : string :=
  "No available Gemini model found. All models are either unavailable or overloaded. Last error: "
  ++ lastErrorText lastError ++ ". Please try again in a few moments.".

(** [m.sender === "user" ? "User" : "Assistant"] and the line of the
    flattened transcript (line 181). *)
Definition transcriptLine (m : Message) : string :=
  (if String.eqb (sender m) "user" then "User" else "Assistant")
  ++ ": " ++ text m.

(** The [prompt] of the fallback path (lines 180-182). *)
Definition flattenPrompt (trimmedHistory : list Message) (msg : string)
  : string :=
  if (0 <? length trimmedHistory)%nat
  then "Previous conversation:" ++ nl
       ++ join nl (map transcriptLine trimmedHistory)
       ++ nl ++ nl ++ "User: " ++ msg ++ nl ++ "Assistant:"
  else msg.

(** [Array.isArray(history) ? history.slice(-30) : []] (lines 53-55). *)
Definition trimHistory (history : option (list Message)) : list Message :=
  match history with
  | Some h => slice_last 30 h
  | None => []
  end.

(** ** A state-and-exception monad over [world] *)

Definition M (A : Type) : Type := world -> exc A * world.

Definition ret {A} (a : A) : M A := fun w => (Ok a, w).

Definition bind {A B} (c : M A) (k : A -> M B) : M B :=
  fun w => match c w with
           | (Ok a, w1) => k a w1
           | (Exc e, w1) => (Exc e, w1)
           end.

Notation "x <- c ;; k" := (bind c (fun x => k))
  (at level 61, c at next level, right associativity).

Definition throw {A} (e : Error) : M A := fun w => (Exc e, w).

(** [try { c } catch (e) { ... }]: the outcome of [c] as a value. *)
Definition try_ {A} (c : M A) : M (exc A) :=
  fun w => match c w with
           | (Ok a, w1) => (Ok (Ok a), w1)
           | (Exc e, w1) => (Ok (Exc e), w1)
           end.

Definition getCache : M (option string) := fun w => (Ok (cachedModelName w), w).

Definition setCache (c : option string) : M unit :=
  fun w => (Ok tt, mkWorld c (trace w)).

Definition sleepW (delay : Z) (w : world) : world :=
  mkWorld (cachedModelName w) (trace w ++ [Sleep delay]).

(** [await retryWithBackoff(fn, maxRetries, baseDelay)]: [Some v] for a
    returned value, [None] for [undefined], a rejection for a throw. *)
Definition retryM {A} (fn : M A) (maxRetries baseDelay : Z) : M (option A) :=
  fun w => match retryWithBackoff sleepW fn maxRetries baseDelay w with
           | (Returned v, w1) => (Ok (Some v), w1)
           | (FellThrough, w1) => (Ok None, w1)
           | (Threw e, w1) => (Exc e, w1)
           end.

(** ** The [/api/chat] handler (server.js, lines 40-217) *)

Section Handler.
(** The Gemini service: the outcome of a call on the handle of a model
    name, given the trace of everything that happened before. *)
Variable upstream : list event -> string -> upcall -> exc Response.

Definition call (model : string) (c : upcall) : M Response :=
  fun w => (upstream (trace w) model c,
            mkWorld (cachedModelName w) (trace w ++ [Call model c])).

(** The liveness probe: [const testResult = await
    model.generateContent("test"); await testResult.response;]. *)
Definition probe (model : string) : M unit :=
  _ <- call model (GenerateContent "test") ;; ret tt.

(** Lines 93-113: [modelName] after the cached-model check ([None] for
    [null] or the empty string).  [model] is set exactly when
    [modelName] is, so [!model || !modelName] is [modelName = None]. *)
Definition cachedProbe : M (option string) :=
  modelName <- getCache ;;
  match modelName with
  | Some n =>
      if String.eqb n "" then ret None
      else
        r <- try_ (retryM (probe n) 2 500) ;;
        match r with
        | Ok _ => ret (Some n)
        | Exc _ => _ <- setCache None ;; ret None
        end
  | None => ret None
  end.

(** Lines 117-142: the walk over the candidates, threading [lastError]. *)
Fixpoint walk (names : list string) (lastError : option Error)
  : M (option string * option Error) :=
  match names with
  | [] => ret (None, lastError)
  | name :: rest =>
      r <- try_ (retryM (probe name) 2 500) ;;
      match r with
      | Ok _ => _ <- setCache (Some name) ;; ret (Some name, lastError)
      | Exc e => walk rest (Some e)
      end
  end.

(** Lines 115-147 when reached with no model: the walk, then the
    [throw] of line 146 if it found none. *)
Definition walkAll : M string :=
  m2 <- walk modelNames None ;;
  match m2 with
  | (Some n, _) => ret n
  | (None, lastError) => throw (err (noModelMessage lastError))
  end.

(** Lines 92-147: the name of the model the request uses.  After a
    successful cached probe both [model] and [modelName] are set, so the
    walk and the [throw] are skipped. *)
Definition resolveModel : M string :=
  m1 <- cachedProbe ;;
  match m1 with
  | Some n => ret n
  | None => walkAll
  end.

(** [const response = await result.response] on the value returned by
    [retryWithBackoff]; [undefined] makes the property access throw. *)
Definition responseOf (r : option Response) : M Response :=
  match r with
  | Some resp => ret resp
  | None => throw (err "Cannot read properties of undefined (reading 'response')")
  end.

(** [response.text() || "I couldn't generate a reply."] *)
Definition replyOf (resp : Response) : M string :=
  match resp with
  | RText t => ret (if String.eqb t "" then "I couldn't generate a reply." else t)
  | RTextThrows e => throw e
  end.

(** The [try] block of lines 151-176. *)
Definition primaryPath (model : string) (conversationHistory : list Turn)
    (msg : string) : M string :=
  let historyForChat := removelast conversationHistory in
  let currentMessage := last conversationHistory (mkTurn "user" "") in
  if (0 <? length historyForChat)%nat then
    _ <- call model (StartChat historyForChat) ;;
    r <- retryM (call model (SendMessage (part_text currentMessage))) 3 1000 ;;
    resp <- responseOf r ;;
    replyOf resp
  else
    r <- retryM (call model (GenerateContent msg)) 3 1000 ;;
    resp <- responseOf r ;;
    replyOf resp.

(** The [catch (chatError)] block of lines 177-190. *)
Definition fallbackPath (model : string) (prompt : string) : M string :=
  r <- retryM (call model (GenerateContent prompt)) 3 1000 ;;
  resp <- responseOf r ;;
  replyOf resp.

Definition invoke (model : string) (trimmedHistory : list Message)
    (conversationHistory : list Turn) (msg : string) : M string :=
  r <- try_ (primaryPath model conversationHistory msg) ;;
  match r with
  | Ok replyText => ret replyText
  | Exc _ => fallbackPath model (flattenPrompt trimmedHistory msg)
  end.

(** Lines 52-190, after the precondition checks. *)
Definition chatCore (message : string) (history : option (list Message))
  : M string :=
  let trimmedHistory := trimHistory history in
  let conversationHistory :=
    buildHistoryForGemini (Some trimmedHistory) (trim message) in
  modelName <- resolveModel ;;
  invoke modelName trimmedHistory conversationHistory (trim message).

(** The handler; [apiKey] is [process.env.GEMINI_API_KEY]. *)
Definition chat (req : Request) (apiKey : option string) (w : world)
  : HttpResponse * world :=
  match req_message req with
  | None => (mkHttpResponse 400 (ErrorBody "message is required"), w)
  | Some message =>
      if String.eqb (trim message) "" then
        (mkHttpResponse 400 (ErrorBody "message is required"), w)
      else if match apiKey with Some k => String.eqb k "" | None => true end
      then (mkHttpResponse 500 (ErrorBody "Gemini API key not configured"), w)
      else
        match chatCore message (req_history req) w with
        | (Ok replyText, w1) => (mkHttpResponse 200 (Reply replyText), w1)
        | (Exc e, w1) => (mkHttpResponse 500 (ErrorBody (errorMessageOf e)), w1)
        end
  end.
End Handler.

(** ** Observing [retryWithBackoff] on its own

    An operation is observed through a log of its executions and of the
    sleeps in between; its [i]-th execution (from 0) has outcome [f i]. *)

Inductive attempt_event : Type :=
| Exec (i : nat)
| Slept (delay : Z).

Definition execs (l : list attempt_event) : nat :=
  length (filter (fun ev => match ev with Exec _ => true | Slept _ => false end) l).

Definition op_of {A} (f : nat -> exc A) (l : list attempt_event)
  : exc A * list attempt_event :=
  (f (execs l), l ++ [Exec (execs l)])%list.

Definition logSleep (delay : Z) (l : list attempt_event) : list attempt_event :=
  (l ++ [Slept delay])%list.

(** The log of a run that stops at attempt [n]: attempts [0 .. n-1] each
    followed by its backoff sleep, then attempt [n]. *)
Definition backoff_log (baseDelay : Z) (n : nat) : list attempt_event :=
  (flat_map (fun i => [Exec i; Slept (baseDelay * 2 ^ Z.of_nat i)]) (seq 0 n)
   ++ [Exec n])%list.

Definition final_of {A} (r : exc A) : retry_result A :=
  match r with
  | Ok v => Returned v
  | Exc e => Threw e
  end.

(** An outcome that [retryWithBackoff] retries when attempts remain. *)
Definition overloadFailure {A} (r : exc A) : bool :=
  match r with
  | Exc e => isOverloaded e
  | Ok _ => false
  end.

(** ** The error taxonomy as an ordered rule list

    The categories and their precedence as the spec states them (4.5 and
    9): the first rule with a matching substring decides. *)

Inductive ErrorCategory : Type :=
| Overloaded | NotFound | Unauthorized | Forbidden | RateLimited | Unknown.

Definition classifierRules : list (list string * ErrorCategory) :=
  [ (["503"; "overloaded"; "Service Unavailable"], Overloaded);
    (["404"; "not found"], NotFound);
    (["401"; "API key"], Unauthorized);
    (["403"], Forbidden);
    (["429"; "rate limit"], RateLimited) ].

Fixpoint firstMatch (m : string) (rules : list (list string * ErrorCategory))
  : ErrorCategory :=
  match rules with
  | [] => Unknown
  | (subs, c) :: rest =>
      if existsb (includes m) subs then c else firstMatch m rest
  end.

Definition classify_spec (m : string) : ErrorCategory :=
  firstMatch m classifierRules.

(** The user-facing text of a category; [Unknown] passes [m] through. *)
Definition template (c : ErrorCategory) (m : string) : string :=
  match c with
  | Overloaded => msgOverloaded
  | NotFound => msgNotFound
  | Unauthorized => msgUnauthorized
  | Forbidden => msgForbidden
  | RateLimited => msgRateLimited
  | Unknown => m
  end.

(** ** Sample upstream behaviours *)

(** Every call fails with a "not found" error (no overload indicator). *)
Definition notFoundEverywhere (_ : list event) (_ : string) (_ : upcall)
  : exc Response :=
  Exc (err "404 model not found").

(** Every call fails: with "503 Service Unavailable" unless it follows a
    backoff sleep, then with "404 model not found". *)
Definition overloadedThenMissing (tr : list event) (_ : string) (_ : upcall)
  : exc Response :=
  match last tr (Call "" (GenerateContent "")) with
  | Sleep _ => Exc (err "404 model not found")
  | Call _ _ => Exc (err "503 Service Unavailable")
  end.

(** Every call succeeds with the given text. *)
Definition answersWith (t : string) (_ : list event) (_ : string) (_ : upcall)
  : exc Response :=
  Ok (RText t).

(** [StartChat] fails, every other call succeeds with the given text. *)
Definition chatBroken (t : string) (_ : list event) (_ : string) (c : upcall)
  : exc Response :=
  match c with
  | StartChat _ => Exc (err "chat unsupported")
  | _ => Ok (RText t)
  end.

(** Call events and their count in a trace extension. *)
Definition is_call (ev : event) : bool :=
  match ev with Call _ _ => true | Sleep _ => false end.

Definition ncalls (evs : list event) : nat := length (filter is_call evs).

(** Only calls [c] on [model] and sleeps. *)
Definition callsOnly (model : string) (c : upcall) (evs : list event) : Prop :=
  Forall (fun ev => ev = Call model c \/ exists d, ev = Sleep d) evs.

(** An action that leaves [cachedModelName] as it found it. *)
Definition keepsCache {A} (c : M A) : Prop :=
  forall w, cachedModelName (snd (c w)) = cachedModelName w.

(** ** [/api/list-models] and [/api/test-models] (server.js, lines 219-347) *)

(** Drop the first [n] characters. *)
Fixpoint dropStr (n : nat) (s : string) : string :=
  match n, s with
  | O, _ => s
  | S n', String _ s' => dropStr n' s'
  | S _, EmptyString => EmptyString
  end.

(** [s.replace(pat, rep)] with a string pattern: only the first occurrence
    is replaced (an empty pattern matches at index 0). *)
Fixpoint replaceFirst (s pat rep : string) : string :=
  if startsWith s pat then rep ++ dropStr (String.length pat) s
  else match s with
       | EmptyString => EmptyString
       | String c s' => String c (replaceFirst s' pat rep)
       end.

(** [`${n}`] for a natural number. *)
Definition digit (n : nat) : ascii := ascii_of_nat (48 + n).

Fixpoint decimal_aux (fuel n : nat) (acc : string) : string :=
  match fuel with
  | O => acc
  | S fuel' =>
      let acc' := String (digit (n mod 10)) acc in
      if (n <? 10)%nat then acc' else decimal_aux fuel' (n / 10) acc'
  end.

Definition decimal (n : nat) : string := decimal_aux (S n) n EmptyString.

(** A [fetch] response: [response.ok], [await response.text()] and
    [await response.json()], of which the handlers read [data.models]
    ([None] when absent) and each entry's [name] ([None] when absent). *)
Record FetchResponse := mkFetchResponse {
  resp_ok : bool;
  resp_text : exc string;
  resp_json : exc (option (list (option string))) }.

(** The REST listing endpoints, for an API key. *)
Definition v1betaUrl (apiKey : string) : string :=
  "https://generativelanguage.googleapis.com/v1beta/models?key=" ++ apiKey.
Definition v1Url (apiKey : string) : string :=
  "https://generativelanguage.googleapis.com/v1/models?key=" ++ apiKey.

(** [const name = m.name || ""; return name.replace('models/', '');] *)
Definition modelNameOf (m : option string) : string :=
  replaceFirst (match m with Some n => n | None => "" end) "models/" "".

(** [data.models || []] *)
Definition modelsOf (data : option (list (option string))) : list (option string) :=
  match data with Some ms => ms | None => [] end.

(** A state-and-exception monad over the list of fetched URLs. *)
Definition FM (A : Type) : Type := list string -> exc A * list string.

Definition fret {A} (a : A) : FM A := fun log => (Ok a, log).

Definition fbind {A B} (c : FM A) (k : A -> FM B) : FM B :=
  fun log => match c log with
             | (Ok a, log1) => k a log1
             | (Exc e, log1) => (Exc e, log1)
             end.

Notation "x <<- c ;;; k" := (fbind c (fun x => k))
  (at level 61, c at next level, right associativity).

(** An awaited promise that has already settled. *)
Definition lift {A} (r : exc A) : FM A := fun log => (r, log).

(** The answers of [/api/list-models]. *)
Inductive ListModelsResponse : Type :=
(** 500 [{ error: "GEMINI_API_KEY not set" }] *)
| LMNoKey
(** 500 [{ error: "Failed to fetch models", details, suggestion:
    "Please verify your API key is correct and has proper permissions" }] *)
| LMFetchFailed (details : string)
(** 200 [{ apiVersion, totalModels, models, modelNames, suggestion }] *)
| LMOk (apiVersion : string) (totalModels : nat) (models : list (option string))
       (modelNames : list string) (suggestion : string)
(** 500 [{ error: err.message, stack: err.stack }] from the [catch] *)
| LMCaught (error : option string).

(** The suggestion of a successful listing (lines 259-261). *)
Definition listSuggestion (modelNames : list string) : string :=
  if (0 <? length modelNames)%nat
  then "Try using one of these models: " ++ join ", " (firstn 3 modelNames)
  else "No models found. Check your API key.".

(** The names tried when the API lists no Gemini model (lines 298-304). *)
Definition defaultTestModels : list string :=
  [ "gemini-2.5-flash"; "gemini-2.5-pro"; "gemini-flash-latest";
    "gemini-pro-latest"; "gemini-2.0-flash-001" ].

(** [const modelsToTest = availableModels.length > 0 ?
    availableModels.slice(0, 5) : [...]] (lines 296-304). *)
Definition modelsToTest (availableModels : list string) : list string :=
  if (0 <? length availableModels)%nat then firstn 5 availableModels
  else defaultTestModels.

(** [name && name.includes('gemini')] *)
Definition isGeminiName (name : string) : bool :=
  negb (String.eqb name "") && includes name "gemini".

(** One entry of [results] of [/api/test-models]; the constant [message]
    of each status is not represented. *)
Inductive TestResult : Type :=
| TRSuccess (model : string) (response : string)
| TRFailed (model : string) (error : option string).

Definition resultModel (r : TestResult) : string :=
  match r with TRSuccess m _ | TRFailed m _ => m end.

(** [r.status === "success"] *)
Definition isSuccess (r : TestResult) : bool :=
  match r with TRSuccess _ _ => true | TRFailed _ _ => false end.

Record TestModelsSummary := mkSummary {
  total : nat;
  working : nat;
  workingModels : list string;
  recommendation : string }.

(** [summary] of lines 329-342. *)
Definition summarize (availableModels : list string) (results : list TestResult)
  : TestModelsSummary :=
  let ws := filter isSuccess results in
  mkSummary (length results) (length ws) (map resultModel ws)
    (match ws with
     | r :: _ => "Use model: " ++ resultModel r
     | [] =>
         if (0 <? length availableModels)%nat
         then "Found " ++ decimal (length availableModels)
              ++ " models from API but none worked. Try visiting /api/list-models to see details."
         else "No working models found. Please check your API key. Visit /api/list-models to see available models."
     end).

(** The answers of [/api/test-models]. *)
Inductive TestModelsResponse : Type :=
(** 500 [{ error: "GEMINI_API_KEY not set" }] *)
| TMNoKey
(** 200 [{ availableModelsFromAPI, results, summary }] *)
| TMOk (availableModelsFromAPI : list string) (results : list TestResult)
       (summary : TestModelsSummary)
(** 500 [{ error: err.message }] from the outer [catch] *)
| TMCaught (error : option string).

Section Endpoints.
Variable fetchUp : list string -> string -> exc FetchResponse.
Variable upstream : list event -> string -> upcall -> exc Response.

(** [await fetch(url)], answered from the URLs fetched before. *)
Definition fetch (url : string) : FM FetchResponse :=
  fun log => (fetchUp log url, (log ++ [url])%list).

(** Lines 227-262, after the key check. *)
Definition listModelsFetch (apiKey : string) : FM ListModelsResponse :=
  r1 <<- fetch (v1betaUrl apiKey) ;;;
  rv <<- (if resp_ok r1 then fret (r1, "v1beta")
          else r2 <<- fetch (v1Url apiKey) ;;; fret (r2, "v1")) ;;;
  let (response, apiVersion) := rv in
  if negb (resp_ok response) then
    errorText <<- lift (resp_text response) ;;;
    fret (LMFetchFailed errorText)
  else
    data <<- lift (resp_json response) ;;;
    let models := modelsOf data in
    let names := map modelNameOf models in
    fret (LMOk apiVersion (length names) models names (listSuggestion names)).

(** [app.get("/api/list-models", ...)]: the answer and the URLs fetched. *)
Definition listModels (apiKey : option string) (log : list string)
  : ListModelsResponse * list string :=
  match apiKey with
  | Some k =>
      if String.eqb k "" then (LMNoKey, log)
      else match listModelsFetch k log with
           | (Ok r, log1) => (r, log1)
           | (Exc e, log1) => (LMCaught (message e), log1)
           end
  | None => (LMNoKey, log)
  end.

(** The inner [try] of lines 279-290. *)
Definition availableFetch (apiKey : string) : FM (list string) :=
  r1 <<- fetch (v1betaUrl apiKey) ;;;
  r <<- (if resp_ok r1 then fret r1 else fetch (v1Url apiKey)) ;;;
  if resp_ok r then
    data <<- lift (resp_json r) ;;;
    fret (filter isGeminiName (map modelNameOf (modelsOf data)))
  else fret [].

(** [availableModels] after the inner [try]/[catch]. *)
Definition availableModelsOf (apiKey : string) (log : list string)
  : list string * list string :=
  match availableFetch apiKey log with
  | (Ok a, log1) => (a, log1)
  | (Exc _, log1) => ([], log1)
  end.

(** [response.text()] *)
Definition responseText (resp : Response) : M string :=
  match resp with
  | RText t => ret t
  | RTextThrows e => throw e
  end.

(** One iteration of lines 307-327. *)
Definition testOne (modelName : string) : M TestResult :=
  r <- try_ (resp <- call upstream modelName (GenerateContent "Hi") ;;
             responseText resp) ;;
  match r with
  | Ok t => ret (TRSuccess modelName (substring 0 100 t))
  | Exc e => ret (TRFailed modelName (message e))
  end.

Fixpoint testAll (names : list string) : M (list TestResult) :=
  match names with
  | [] => ret []
  | n :: rest =>
      r <- testOne n ;;
      rs <- testAll rest ;;
      ret (r :: rs)
  end.

(** [app.get("/api/test-models", ...)]: the answer, the URLs fetched and
    the state after the model calls. *)
Definition testModels (apiKey : option string) (log : list string) (w : world)
  : TestModelsResponse * list string * world :=
  match apiKey with
  | Some k =>
      if String.eqb k "" then (TMNoKey, log, w)
      else
        let (available, log1) := availableModelsOf k log in
        match testAll (modelsToTest available) w with
        | (Ok results, w1) => (TMOk available results (summarize available results), log1, w1)
        | (Exc e, w1) => (TMCaught (message e), log1, w1)
        end
  | None => (TMNoKey, log, w)
  end.
End Endpoints.

(** ** Further observations of the chat handler *)

(** The total time slept in a log of [retryWithBackoff]. *)
Definition sleptTotal (l : list attempt_event) : Z :=
  fold_right (fun ev acc => match ev with Slept d => d + acc | Exec _ => acc end) 0 l.

(** [cachedModelName] is empty or holds a candidate. *)
Definition cacheWellFormed (w : world) : Prop :=
  cachedModelName w = None \/ exists c, cachedModelName w = Some c /\ In c modelNames.

(** A listing service whose v1beta endpoint answers 404 and whose v1
    endpoint lists [models]. *)
Definition v1Listing (models : list (option string)) (_ : list string)
    (url : string) : exc FetchResponse :=
  if includes url "/v1beta/"
  then Ok (mkFetchResponse false (Ok "Not Found") (Exc (err "Unexpected token")))
  else Ok (mkFetchResponse true (Ok "") (Ok (Some models))).

(** A listing service that answers every request not ok, with body [t]. *)
Definition refusingListing (t : string) (_ : list string) (_ : string)
  : exc FetchResponse :=
  Ok (mkFetchResponse false (Ok t) (Exc (err "Unexpected token"))).

(** * Properties *)

(** ** [buildHistoryForGemini] *)

Lemma history_fold_acc (h : list Message) (acc : list Turn) :
  fold_left
    (fun acc msg =>
       if String.eqb (sender msg) "user" then
         (acc ++ [mkTurn "user" (text msg)])%list
       else if String.eqb (sender msg) "bot" then
         (acc ++ [mkTurn "model" (text msg)])%list
       else acc) h acc
  = (acc ++ flat_map turnOf h)%list.
Proof.
  revert acc; induction h as [|m h IH]; intros acc; simpl.
  - now rewrite app_nil_r.
  - rewrite IH; unfold turnOf.
    destruct (String.eqb (sender m) "user"), (String.eqb (sender m) "bot");
      now rewrite <- ?app_assoc.
Qed.

Lemma buildHistory_flat (h : list Message) (m : string) :
  buildHistoryForGemini (Some h) m = (flat_map turnOf h ++ [mkTurn "user" m])%list.
Proof. unfold buildHistoryForGemini; now rewrite history_fold_acc. Qed.

Lemma flat_map_turnOf_recognised (h : list Message) :
  Forall (fun msg => sender msg = "user" \/ sender msg = "bot") h ->
  flat_map turnOf h = map (fun msg => mkTurn (roleOf msg) (text msg)) h.
Proof.
  induction 1 as [|m h Hm _ IH]; simpl; [reflexivity|].
  rewrite IH; unfold turnOf, roleOf.
  destruct Hm as [-> | ->]; reflexivity.
Qed.

Lemma flat_map_turnOf_filter (h : list Message) :
  flat_map turnOf h = flat_map turnOf (filter recognised h).
Proof.
  induction h as [|m h IH]; simpl; [reflexivity|].
  unfold recognised, turnOf at 1.
  destruct (String.eqb (sender m) "user") eqn:U; simpl.
  - unfold turnOf at 2; rewrite U; simpl; now rewrite IH.
  - destruct (String.eqb (sender m) "bot") eqn:B; simpl; [|exact IH].
    unfold turnOf at 2; rewrite U, B; simpl; now rewrite IH.
Qed.

Lemma length_flat_map_turnOf (h : list Message) :
  length (flat_map turnOf h) = length (filter recognised h).
Proof.
  induction h as [|m h IH]; simpl; [reflexivity|].
  rewrite length_app, IH; unfold turnOf, recognised.
  destruct (String.eqb (sender m) "user"), (String.eqb (sender m) "bot");
    reflexivity.
Qed.

(** C5: for a history of [user]/[bot] entries, [buildHistoryForGemini]
    maps every entry in order ([user] to role [user], [bot] to role
    [model]) and appends the new message as a final [user] turn, so the
    output is one longer than the input; a missing or empty history gives
    the single new-message turn.  It is a (total, deterministic) function
    of its arguments. *)
Theorem buildHistoryForGemini_spec (h : list Message) (newMessage : string) :
  Forall (fun msg => sender msg = "user" \/ sender msg = "bot") h ->
  let out := buildHistoryForGemini (Some h) newMessage in
  out = (map (fun msg => mkTurn (roleOf msg) (text msg)) h
         ++ [mkTurn "user" newMessage])%list
  /\ length out = S (length h)
  /\ last out (mkTurn "" "") = mkTurn "user" newMessage
  /\ buildHistoryForGemini None newMessage = [mkTurn "user" newMessage]
  /\ buildHistoryForGemini (Some []) newMessage = [mkTurn "user" newMessage].
Proof.
  intros Hs out; subst out.
  rewrite buildHistory_flat, (flat_map_turnOf_recognised h Hs).
  split; [reflexivity|].
  split; [rewrite length_app, length_map; simpl; lia|].
  split; [apply last_last|].
  split; reflexivity.
Qed.

(** C10: entries whose sender is neither [user] nor [bot] contribute no
    turn: the output is that of the history without them, its length is the
    number of recognised entries plus one, hence strictly less than the
    input length plus one as soon as one entry is unrecognised, and the new
    message is still the final [user] turn. *)
Theorem buildHistoryForGemini_drops_unknown (h : list Message)
    (newMessage : string) :
  Exists (fun msg => sender msg <> "user" /\ sender msg <> "bot") h ->
  let out := buildHistoryForGemini (Some h) newMessage in
  out = buildHistoryForGemini (Some (filter recognised h)) newMessage
  /\ length out = S (length (filter recognised h))
  /\ (length out < S (length h))%nat
  /\ last out (mkTurn "" "") = mkTurn "user" newMessage.
Proof.
  intros Hex out; subst out.
  rewrite !buildHistory_flat, <- flat_map_turnOf_filter.
  assert (Hlt : (length (filter recognised h) < length h)%nat).
  { clear newMessage; induction Hex as [m h [Hu Hb] | m h _ IH]; simpl.
    - unfold recognised at 1.
      apply String.eqb_neq in Hu, Hb; rewrite Hu, Hb; simpl.
      pose proof (filter_length_le recognised h); lia.
    - destruct (recognised m); simpl; lia. }
  rewrite length_app, length_flat_map_turnOf; simpl.
  split; [reflexivity|]. split; [lia|]. split; [lia|].
  apply last_last.
Qed.

(** ** [retryWithBackoff] *)

Lemma execs_app_exec (l : list attempt_event) (i : nat) :
  execs (l ++ [Exec i]) = S (execs l).
Proof. unfold execs; rewrite filter_app, length_app; simpl; lia. Qed.

Lemma execs_app_slept (l : list attempt_event) (d : Z) :
  execs (l ++ [Slept d]) = execs l.
Proof. unfold execs; rewrite filter_app, length_app; simpl; lia. Qed.

Section RetryLog.
Context {A : Type}.
Variable f : nat -> exc A.
Variables maxRetries baseDelay : Z.

(** The loop from attempt [k] that stops at attempt [k + n]. *)
Lemma retry_loop_log (n : nat) : forall k fuel l,
  execs l = k ->
  Z.of_nat (k + n) < maxRetries ->
  (n < fuel)%nat ->
  (forall i, (k <= i < k + n)%nat -> overloadFailure (f i) = true) ->
  (Z.of_nat (k + n) = maxRetries - 1 \/ overloadFailure (f (k + n)) = false) ->
  retry_loop logSleep (op_of f) maxRetries baseDelay fuel k l
  = (final_of (f (k + n)),
     l ++ flat_map (fun i => [Exec i; Slept (baseDelay * 2 ^ Z.of_nat i)])
                   (seq k n)
       ++ [Exec (k + n)])%list.
Proof.
  induction n as [|n IH]; intros k [|fuel] l Hk Hlt Hfuel Hpre Hstop;
    try lia; simpl retry_loop.
  - rewrite Nat.add_0_r in *.
    replace (Z.of_nat k <? maxRetries) with true by (symmetry; apply Z.ltb_lt; lia).
    unfold op_of; rewrite Hk.
    destruct (f k) as [v|e] eqn:Hf; [reflexivity|].
    replace (isOverloaded e && (Z.of_nat k <? maxRetries - 1)) with false.
    + reflexivity.
    + destruct Hstop as [Heq|Hno].
      * replace (Z.of_nat k <? maxRetries - 1) with false
          by (symmetry; apply Z.ltb_ge; lia).
        now rewrite andb_false_r.
      * simpl in Hno; now rewrite Hno.
  - replace (Z.of_nat k <? maxRetries) with true by (symmetry; apply Z.ltb_lt; lia).
    unfold op_of at 1; rewrite Hk.
    pose proof (Hpre k ltac:(lia)) as Hk0.
    destruct (f k) as [v|e] eqn:Hf; [discriminate|].
    simpl in Hk0; rewrite Hk0.
    replace (Z.of_nat k <? maxRetries - 1) with true by (symmetry; apply Z.ltb_lt; lia).
    simpl andb; cbv zeta.
    rewrite (IH (S k) fuel).
    + replace (S k + n)%nat with (k + S n)%nat by lia.
      unfold logSleep; simpl.
      now rewrite <- !app_assoc.
    + unfold logSleep; now rewrite execs_app_slept, execs_app_exec, Hk.
    + lia.
    + lia.
    + intros i Hi; apply Hpre; lia.
    + now replace (S k + n)%nat with (k + S n)%nat by lia.
Qed.

(** The log of a run extends the log it starts from. *)
Lemma retry_loop_log_extends : forall fuel k l, exists rest,
  snd (retry_loop logSleep (op_of f) maxRetries baseDelay fuel k l)
  = (l ++ rest)%list.
Proof.
  induction fuel as [|fuel IH]; intros k l; cbn -[op_of logSleep].
  - exists []; now rewrite app_nil_r.
  - destruct (Z.of_nat k <? maxRetries); [|exists []; now rewrite app_nil_r].
    unfold op_of at 1.
    destruct (f (execs l)) as [v|e]; cbn -[op_of logSleep retry_loop];
      [eexists; reflexivity|].
    destruct (isOverloaded e && (Z.of_nat k <? maxRetries - 1));
      [|eexists; reflexivity].
    destruct (IH (S k) (logSleep (baseDelay * 2 ^ Z.of_nat k)
                                 (l ++ [Exec (execs l)])%list)) as [rest Hr].
    rewrite Hr; unfold logSleep; rewrite <- !app_assoc.
    eexists; reflexivity.
Qed.

(** Whatever the outcomes, some attempt [n < maxRetries] is where the
    overload retries stop. *)
Lemma retry_stop_index (N : nat) :
  (forall i, (i < N)%nat -> overloadFailure (f i) = true)
  \/ exists n, (n < N)%nat
               /\ (forall i, (i < n)%nat -> overloadFailure (f i) = true)
               /\ overloadFailure (f n) = false.
Proof.
  induction N as [|N [IH|IH]].
  - left; intros i Hi; lia.
  - destruct (overloadFailure (f N)) eqn:HN.
    + left; intros i Hi.
      destruct (Nat.eq_dec i N) as [->|]; [exact HN|apply IH; lia].
    + right; exists N; repeat split; auto.
  - right; destruct IH as (n & Hn & Hpre & Hstop).
    exists n; repeat split; auto.
Qed.
End RetryLog.

(** C1: [retryWithBackoff fn maxRetries baseDelay] executes [fn] at most
    [maxRetries] times.  If attempts [0 .. n-1] fail with an overload
    indicator ("503", "overloaded", "Service Unavailable") and attempt [n]
    is the last one allowed or does not end in such a failure, the run is
    exactly: attempt [i], sleep [baseDelay * 2^i], for [i < n], then
    attempt [n], whose own outcome (value or underlying error, never a
    synthetic one) is the result.  Such an [n < maxRetries] always exists;
    with [maxRetries <= 0] nothing is executed. *)
Theorem retryWithBackoff_policy {A} (f : nat -> exc A)
    (maxRetries baseDelay : Z) :
  (maxRetries <= 0 ->
   retryWithBackoff logSleep (op_of f) maxRetries baseDelay [] = (FellThrough, []))
  /\ (forall n : nat,
        Z.of_nat n < maxRetries ->
        (forall i, (i < n)%nat -> overloadFailure (f i) = true) ->
        (Z.of_nat n = maxRetries - 1 \/ overloadFailure (f n) = false) ->
        retryWithBackoff logSleep (op_of f) maxRetries baseDelay []
        = (final_of (f n), backoff_log baseDelay n))
  /\ (0 < maxRetries ->
      exists n : nat,
        Z.of_nat n < maxRetries
        /\ (forall i, (i < n)%nat -> overloadFailure (f i) = true)
        /\ (Z.of_nat n = maxRetries - 1 \/ overloadFailure (f n) = false)).
Proof.
  split; [|split].
  - intros Hle; unfold retryWithBackoff.
    replace (Z.to_nat maxRetries) with O by lia; reflexivity.
  - intros n Hlt Hpre Hstop; unfold retryWithBackoff.
    rewrite (retry_loop_log f maxRetries baseDelay n 0 (Z.to_nat maxRetries) []).
    + reflexivity.
    + reflexivity.
    + exact Hlt.
    + lia.
    + intros i Hi; apply Hpre; lia.
    + exact Hstop.
  - intros Hpos.
    destruct (retry_stop_index f (Z.to_nat (maxRetries - 1))) as [Hall|(n & Hn & Hpre & Hstop)].
    + exists (Z.to_nat (maxRetries - 1)).
      split; [lia|]. split; [exact Hall|]. left; lia.
    + exists n.
      split; [lia|]. split; [exact Hpre|]. right; exact Hstop.
Qed.

(** C4 (as stated, refuted): the overload test is case-sensitive.  A
    failure "overloaded" is retried, the same failure spelt "OVERLOADED"
    is not, and neither is "service unavailable". *)
Lemma retry_uppercase_not_retried :
  isOverloaded (err "overloaded") = true
  /\ isOverloaded (err "OVERLOADED") = false
  /\ isOverloaded (err "service unavailable") = false
  /\ retryWithBackoff logSleep
       (op_of (fun i => match i with O => Exc (err "overloaded") | _ => Ok tt end))
       3 1000 [] = (Returned tt, [Exec 0; Slept 1000; Exec 1])
  /\ retryWithBackoff logSleep
       (op_of (fun i => match i with O => Exc (err "OVERLOADED") | _ => Ok tt end))
       3 1000 [] = (Threw (err "OVERLOADED"), [Exec 0]).
Proof. repeat split; vm_compute; reflexivity. Qed.

(** C4 (amended): overload detection is a case-sensitive substring test
    for "503", "overloaded" and "Service Unavailable"; a first failure
    whose message contains none of them exactly is propagated after one
    execution, one that contains one of them is followed by a
    [baseDelay] sleep and a second execution when [maxRetries > 1]. *)
Theorem isOverloaded_case_sensitive {A} (f : nat -> exc A)
    (maxRetries baseDelay : Z) (msg : string) :
  isOverloaded (err msg)
    = (includes msg "503" || includes msg "overloaded"
       || includes msg "Service Unavailable")
  /\ (0 < maxRetries -> f O = Exc (err msg) ->
      includes msg "503" = false -> includes msg "overloaded" = false ->
      includes msg "Service Unavailable" = false ->
      retryWithBackoff logSleep (op_of f) maxRetries baseDelay []
      = (Threw (err msg), [Exec 0]))
  /\ (1 < maxRetries -> f O = Exc (err msg) ->
      isOverloaded (err msg) = true ->
      exists rest,
        snd (retryWithBackoff logSleep (op_of f) maxRetries baseDelay [])
        = Exec 0 :: Slept baseDelay :: rest).
Proof.
  split; [reflexivity|split].
  - intros Hpos Hf H1 H2 H3; unfold retryWithBackoff.
    rewrite (retry_loop_log f maxRetries baseDelay 0 0 (Z.to_nat maxRetries) []);
      simpl; auto; try lia.
    + now rewrite Hf.
    + right; rewrite Hf; cbn; unfold isOverloaded, msg_includes; simpl.
      now rewrite H1, H2, H3.
  - intros Hm Hf Hov; unfold retryWithBackoff.
    destruct (Z.to_nat maxRetries) as [|fuel] eqn:Hfuel; [lia|].
    cbn -[op_of logSleep].
    replace (0 <? maxRetries) with true by (symmetry; apply Z.ltb_lt; lia).
    change (op_of f []) with (f O, [Exec O]); rewrite Hf.
    cbn -[op_of logSleep retry_loop]; rewrite Hov.
    replace (0 <? maxRetries - 1) with true by (symmetry; apply Z.ltb_lt; lia).
    simpl andb.
    destruct (retry_loop_log_extends f maxRetries baseDelay fuel 1
                (logSleep (baseDelay * 1) [Exec O]))
      as [rest Hr].
    rewrite Hr; unfold logSleep; simpl.
    rewrite Z.mul_1_r; eexists; reflexivity.
Qed.

(** ** Error classification *)

(** C6 (as stated, refuted): an empty failure message is not passed
    through; the handler answers with its generic text. *)
Lemma errorMessage_empty_not_verbatim :
  errorMessageOf (err "") = msgDefault
  /\ errorMessageOf (mkError None) = msgDefault
  /\ template (classify_spec "") "" = ""
  /\ errorMessageOf (err "") <> template (classify_spec "") "".
Proof. repeat split; vm_compute; congruence. Qed.

(** C6 (amended): the user-facing error text is a function of the failure
    message alone.  A missing or empty message gives "Error communicating
    with Gemini API"; any other message gets the template of the first rule
    of [classifierRules] (Overloaded, NotFound, Unauthorized, Forbidden,
    RateLimited, in that order) with a matching substring, and is passed
    through verbatim when none matches. *)
Theorem errorMessageOf_first_rule (e : Error) :
  errorMessageOf e
  = match message e with
    | Some m => if String.eqb m "" then msgDefault
                else template (classify_spec m) m
    | None => msgDefault
    end.
Proof.
  unfold errorMessageOf.
  destruct (message e) as [m|]; [|reflexivity].
  destruct (String.eqb m ""); [reflexivity|].
  unfold classify_spec, classifierRules; simpl.
  destruct (includes m "503"), (includes m "overloaded"),
    (includes m "Service Unavailable"); simpl; try reflexivity.
  destruct (includes m "404"), (includes m "not found"); simpl; try reflexivity.
  destruct (includes m "401"), (includes m "API key"); simpl; try reflexivity.
  destruct (includes m "403"); simpl; try reflexivity.
  destruct (includes m "429"), (includes m "rate limit"); reflexivity.
Qed.

(** ** Preconditions of the handler *)

(** C7 (as stated, refuted): with a blank message and no API key the
    handler answers 400, not the 500 of a missing key. *)
Lemma blank_message_wins_over_missing_key :
  chat notFoundEverywhere (mkRequest (Some "") None) None (mkWorld None [])
  = (mkHttpResponse 400 (ErrorBody "message is required"), mkWorld None []).
Proof. vm_compute; reflexivity. Qed.

(** C7 (amended): an absent or blank message is answered 400 "message is
    required"; otherwise a missing or empty API key is answered 500
    "Gemini API key not configured".  Either way no upstream call is made
    and the state (the cache and the trace) is left as it was. *)
Theorem chat_preconditions (upstream : list event -> string -> upcall -> exc Response)
    (req : Request) (apiKey : option string) (w : world) :
  ((req_message req = None
    \/ exists s, req_message req = Some s /\ trim s = "") ->
   chat upstream req apiKey w
   = (mkHttpResponse 400 (ErrorBody "message is required"), w))
  /\ (forall s, req_message req = Some s -> trim s <> "" ->
      (apiKey = None \/ apiKey = Some "") ->
      chat upstream req apiKey w
      = (mkHttpResponse 500 (ErrorBody "Gemini API key not configured"), w)).
Proof.
  split.
  - intros [Hnone | (s & Hs & Ht)]; unfold chat.
    + now rewrite Hnone.
    + now rewrite Hs, Ht.
  - intros s Hs Ht Hk; unfold chat; rewrite Hs.
    apply String.eqb_neq in Ht; rewrite Ht.
    now destruct Hk as [-> | ->].
Qed.

(** ** History trimming *)

(** C3 (as stated, refuted): a 31-entry history is cut to its last 30
    entries before the conversation is built; the chat session is seeded
    with 30 turns, not 31. *)
Lemma history_is_trimmed_to_30 :
  let h31 := repeat (mkMessage "user" "a") 31 in
  trimHistory (Some h31) <> h31
  /\ snd (chat (answersWith "ok") (mkRequest (Some "hi") (Some h31))
               (Some "key") (mkWorld None []))
     = mkWorld (Some "gemini-2.5-flash")
         [Call "gemini-2.5-flash" (GenerateContent "test");
          Call "gemini-2.5-flash" (StartChat (repeat (mkTurn "user" "a") 30));
          Call "gemini-2.5-flash" (SendMessage "hi")].
Proof.
  split.
  - vm_compute; discriminate.
  - vm_compute; reflexivity.
Qed.

(** C3 (amended): the core keeps only the last 30 entries of an array
    history ([history.slice(-30)]), all of them when there are at most 30,
    and treats a non-array history as empty; the conversation it sends is
    built from the kept entries. *)
Theorem trimHistory_last_30 (upstream : list event -> string -> upcall -> exc Response)
    (h : list Message) (msg : string) :
  trimHistory (Some h) = skipn (length h - 30) h
  /\ (exists dropped, h = dropped ++ trimHistory (Some h))%list
  /\ length (trimHistory (Some h)) = Nat.min 30 (length h)
  /\ ((length h <= 30)%nat -> trimHistory (Some h) = h)
  /\ trimHistory None = []
  /\ chatCore upstream msg (Some h)
     = (modelName <- resolveModel upstream ;;
        invoke upstream modelName (trimHistory (Some h))
          (buildHistoryForGemini (Some (trimHistory (Some h))) (trim msg))
          (trim msg)).
Proof.
  unfold trimHistory, slice_last.
  split; [reflexivity|]. split; [|split; [|split; [|split]]].
  - exists (firstn (length h - 30) h); symmetry; apply firstn_skipn.
  - rewrite length_skipn; lia.
  - intros Hle; replace (length h - 30)%nat with O by lia; reflexivity.
  - reflexivity.
  - reflexivity.
Qed.

(** ** Effects of the handler's building blocks *)

Lemma startsWith_app (s t p : string) :
  startsWith s p = true -> startsWith (s ++ t) p = true.
Proof.
  revert s; induction p as [|c p IH]; intros s H; [reflexivity|].
  destruct s as [|d s]; [discriminate|].
  simpl in *; apply andb_true_iff in H as [Hc Hs].
  now rewrite Hc, (IH s Hs).
Qed.

Lemma includes_app_l (s t sub : string) :
  includes s sub = true -> includes (s ++ t) sub = true.
Proof.
  induction s as [|c s IH]; intros H.
  - simpl in H; apply orb_true_iff in H as [H|H]; [|discriminate].
    destruct sub; [destruct t; reflexivity|discriminate].
  - change (includes (String c s) sub) with
      (startsWith (String c s) sub || includes s sub) in H.
    change (includes (String c s ++ t) sub) with
      (startsWith (String c (s ++ t)) sub || includes (s ++ t) sub).
    apply orb_true_iff in H as [H|H].
    + pose proof (startsWith_app (String c s) t sub H) as H'.
      simpl in H'; now rewrite H'.
    + now rewrite IH, orb_true_r.
Qed.

(** The no-model error always reads as an overload to the classifier. *)
Lemma noModelMessage_overloaded (lastError : option Error) :
  errorMessageOf (err (noModelMessage lastError)) = msgOverloaded.
Proof.
  assert (Hov : includes (noModelMessage lastError) "overloaded" = true)
    by (unfold noModelMessage; apply includes_app_l; vm_compute; reflexivity).
  assert (Hne : String.eqb (noModelMessage lastError) "" = false)
    by (unfold noModelMessage; reflexivity).
  generalize dependent (noModelMessage lastError); intros m Hov Hne.
  unfold errorMessageOf, err; simpl message.
  cbv iota beta; rewrite Hne, Hov, orb_true_r; reflexivity.
Qed.

Section Effects.
Variable upstream : list event -> string -> upcall -> exc Response.

Lemma retry_loop_preserves {St A} (P : St -> Prop) (sleep : Z -> St -> St)
    (fn : St -> exc A * St) (maxRetries baseDelay : Z) :
  (forall s, P s -> P (snd (fn s))) ->
  (forall d s, P s -> P (sleep d s)) ->
  forall fuel k s, P s ->
    P (snd (retry_loop sleep fn maxRetries baseDelay fuel k s)).
Proof.
  intros Hfn Hsleep fuel; induction fuel as [|fuel IH]; intros k s Hs;
    simpl; [exact Hs|].
  destruct (Z.of_nat k <? maxRetries); [|exact Hs].
  specialize (Hfn s Hs).
  destruct (fn s) as [[v|e] s1]; simpl in *; [exact Hfn|].
  destruct (isOverloaded e && (Z.of_nat k <? maxRetries - 1)); [|exact Hfn].
  apply IH, Hsleep, Hfn.
Qed.

(** A retried action that makes exactly one call [c] on [model] yields
    only such calls and sleeps, at most [fuel] calls. *)
Lemma retry_loop_calls {A} (fn : M A) (model : string) (c : upcall)
    (maxRetries baseDelay : Z) :
  (forall w, exists r,
      fn w = (r, mkWorld (cachedModelName w) (trace w ++ [Call model c])%list)) ->
  forall fuel k w, exists new,
    snd (retry_loop sleepW fn maxRetries baseDelay fuel k w)
    = mkWorld (cachedModelName w) (trace w ++ new)%list
    /\ callsOnly model c new /\ (ncalls new <= fuel)%nat.
Proof.
  unfold callsOnly, ncalls.
  intros Hfn fuel; induction fuel as [|fuel IH]; intros k w; simpl.
  - exists []; rewrite app_nil_r; destruct w; simpl.
    split; [reflexivity|split; [apply Forall_nil|lia]].
  - destruct (Z.of_nat k <? maxRetries).
    2: { exists []; rewrite app_nil_r; destruct w; simpl.
         split; [reflexivity|split; [apply Forall_nil|lia]]. }
    destruct (Hfn w) as [r Hr]; rewrite Hr.
    destruct r as [v|e]; simpl.
    + exists [Call model c]; split; [reflexivity|split; [|simpl; lia]].
      apply Forall_cons; [left; reflexivity|apply Forall_nil].
    + destruct (isOverloaded e && (Z.of_nat k <? maxRetries - 1)); simpl.
      * destruct (IH (S k) (sleepW (baseDelay * 2 ^ Z.of_nat k)
           (mkWorld (cachedModelName w) (trace w ++ [Call model c])%list)))
          as (new & Hw & Hc & Hn).
        rewrite Hw; simpl.
        exists (Call model c :: Sleep (baseDelay * 2 ^ Z.of_nat k) :: new).
        rewrite <- !app_assoc; simpl.
        split; [reflexivity|split].
        -- apply Forall_cons; [left; reflexivity|].
           apply Forall_cons; [right; eexists; reflexivity|exact Hc].
        -- simpl; lia.
      * exists [Call model c]; split; [reflexivity|split; [|simpl; lia]].
        apply Forall_cons; [left; reflexivity|apply Forall_nil].
Qed.

Lemma call_one (model : string) (c : upcall) (w : world) :
  exists r, call upstream model c w
    = (r, mkWorld (cachedModelName w) (trace w ++ [Call model c])%list).
Proof. eexists; reflexivity. Qed.

Lemma probe_one (model : string) (w : world) :
  exists r, probe upstream model w
    = (r, mkWorld (cachedModelName w)
                  (trace w ++ [Call model (GenerateContent "test")])%list).
Proof.
  unfold probe, bind, call, ret; simpl.
  destruct (upstream (trace w) model (GenerateContent "test")); eexists; reflexivity.
Qed.

Lemma retryM_calls {A} (fn : M A) (model : string) (c : upcall)
    (maxRetries baseDelay : Z) :
  (forall w, exists r,
      fn w = (r, mkWorld (cachedModelName w) (trace w ++ [Call model c])%list)) ->
  forall w, exists r new,
    retryM fn maxRetries baseDelay w
    = (r, mkWorld (cachedModelName w) (trace w ++ new)%list)
    /\ callsOnly model c new /\ (ncalls new <= Z.to_nat maxRetries)%nat.
Proof.
  intros Hfn w.
  destruct (retry_loop_calls fn model c maxRetries baseDelay Hfn
              (Z.to_nat maxRetries) 0 w) as (new & Hw & Hc & Hn).
  unfold retryM, retryWithBackoff.
  destruct (retry_loop sleepW fn maxRetries baseDelay (Z.to_nat maxRetries) 0 w)
    as [[v|e|] w1]; simpl in Hw; subst w1; eexists; exists new; auto.
Qed.
End Effects.

Section Resolution.
Variable upstream : list event -> string -> upcall -> exc Response.

Lemma keepsCache_ret {A} (a : A) : keepsCache (ret a).
Proof. intros w; reflexivity. Qed.

Lemma keepsCache_throw {A} (e : Error) : keepsCache (@throw A e).
Proof. intros w; reflexivity. Qed.

Lemma keepsCache_bind {A B} (c : M A) (k : A -> M B) :
  keepsCache c -> (forall a, keepsCache (k a)) -> keepsCache (bind c k).
Proof.
  intros Hc Hk w; unfold bind; specialize (Hc w).
  destruct (c w) as [[a|e] w1]; simpl in *; [rewrite Hk|]; exact Hc.
Qed.

Lemma keepsCache_try {A} (c : M A) : keepsCache c -> keepsCache (try_ c).
Proof.
  intros Hc w; unfold try_; specialize (Hc w).
  destruct (c w) as [[a|e] w1]; exact Hc.
Qed.

Lemma keepsCache_call (model : string) (c : upcall) :
  keepsCache (call upstream model c).
Proof. intros w; reflexivity. Qed.

Lemma keepsCache_retryM {A} (fn : M A) (maxRetries baseDelay : Z) :
  keepsCache fn -> keepsCache (retryM fn maxRetries baseDelay).
Proof.
  intros Hfn w.
  pose proof (retry_loop_preserves
                (fun w1 => cachedModelName w1 = cachedModelName w)
                sleepW fn maxRetries baseDelay
                (fun s Hs => eq_trans (Hfn s) Hs)
                (fun d s Hs => Hs)
                (Z.to_nat maxRetries) 0 w eq_refl) as H.
  unfold retryM, retryWithBackoff.
  destruct (retry_loop sleepW fn maxRetries baseDelay (Z.to_nat maxRetries) 0 w)
    as [[v|e|] w1]; exact H.
Qed.

Lemma keepsCache_responseOf (r : option Response) :
  keepsCache (responseOf r).
Proof. destruct r; intros w; reflexivity. Qed.

Lemma keepsCache_replyOf (resp : Response) : keepsCache (replyOf resp).
Proof. destruct resp; intros w; reflexivity. Qed.

Lemma keepsCache_fallbackPath (model prompt : string) :
  keepsCache (fallbackPath upstream model prompt).
Proof.
  unfold fallbackPath.
  apply keepsCache_bind; [apply keepsCache_retryM, keepsCache_call|intros r].
  apply keepsCache_bind; [apply keepsCache_responseOf|intros resp].
  apply keepsCache_replyOf.
Qed.

Lemma keepsCache_invoke (model : string) (trimmedHistory : list Message)
    (conversationHistory : list Turn) (msg : string) :
  keepsCache (invoke upstream model trimmedHistory conversationHistory msg).
Proof.
  unfold invoke.
  apply keepsCache_bind.
  - apply keepsCache_try; unfold primaryPath.
    destruct (0 <? length (removelast conversationHistory))%nat.
    + apply keepsCache_bind; [apply keepsCache_call|intros _].
      apply keepsCache_bind; [apply keepsCache_retryM, keepsCache_call|intros r].
      apply keepsCache_bind; [apply keepsCache_responseOf|intros resp].
      apply keepsCache_replyOf.
    + apply keepsCache_bind; [apply keepsCache_retryM, keepsCache_call|intros r].
      apply keepsCache_bind; [apply keepsCache_responseOf|intros resp].
      apply keepsCache_replyOf.
  - intros [t|e]; [apply keepsCache_ret|apply keepsCache_fallbackPath].
Qed.

(** The walk never throws; a model it returns is a candidate it cached. *)
Lemma walk_result (names : list string) : forall lastError w,
  match walk upstream names lastError w with
  | (Ok (Some n, _), w1) => cachedModelName w1 = Some n /\ In n names
  | (Ok (None, _), _) => True
  | (Exc _, _) => False
  end.
Proof.
  induction names as [|name rest IH]; intros lastError w; [exact I|].
  simpl walk; unfold bind at 1, try_.
  destruct (retryM (probe upstream name) 2 500 w) as [[r|e] w1].
  - simpl; split; [reflexivity|left; reflexivity].
  - specialize (IH (Some e) w1).
    destruct (walk upstream rest (Some e) w1) as [[[[n|] le]|e'] w2]; auto.
    destruct IH as [H1 H2]; split; [exact H1|right; exact H2].
Qed.

(** A probe whose calls all fail (each with an error of its own) fails
    with the error of its last call, after one call or, on an overload
    error, a sleep and a second call. *)
Lemma probe_fails (name : string) :
  (forall tr, exists e, upstream tr name (GenerateContent "test") = Exc e) ->
  forall w, exists e w1 tr,
    retryM (probe upstream name) 2 500 w = (Exc e, w1)
    /\ cachedModelName w1 = cachedModelName w
    /\ trace w1 = (tr ++ [Call name (GenerateContent "test")])%list
    /\ upstream tr name (GenerateContent "test") = Exc e.
Proof.
  intros H w.
  unfold retryM, retryWithBackoff, probe, bind, call; simpl.
  destruct (H (trace w)) as [e0 H0]; rewrite H0; simpl.
  destruct (isOverloaded e0); simpl.
  - match goal with
    | |- context [upstream ?tr name (GenerateContent "test")] =>
        destruct (H tr) as [e1 H1]; rewrite H1
    end.
    replace (1 <? 1) with false by reflexivity; rewrite andb_false_r.
    eexists _, _, _; split; [reflexivity|split; [reflexivity|]].
    split; [reflexivity|exact H1].
  - eexists _, _, _; split; [reflexivity|split; [reflexivity|]].
    split; [reflexivity|exact H0].
Qed.

(** The walk over candidates that all fail ends with the error of the
    last probe of the last candidate, and keeps the cache. *)
Lemma walk_all_fail (names : list string) :
  (forall tr name, In name names ->
     exists e, upstream tr name (GenerateContent "test") = Exc e) ->
  names <> [] ->
  forall lastError w, exists e w1 tr,
    walk upstream names lastError w = (Ok (None, Some e), w1)
    /\ cachedModelName w1 = cachedModelName w
    /\ trace w1 = (tr ++ [Call (last names "") (GenerateContent "test")])%list
    /\ upstream tr (last names "") (GenerateContent "test") = Exc e.
Proof.
  intros Hall; induction names as [|name rest IH]; intros Hne lastError w;
    [congruence|].
  destruct (probe_fails name (fun tr => Hall tr name (or_introl eq_refl)) w)
    as (e & w1 & tr & Hp & Hc & Ht & He).
  simpl walk; unfold bind at 1, try_; rewrite Hp.
  destruct rest as [|n2 rest'].
  - exists e, w1, tr; auto.
  - destruct (IH (fun tr n Hn => Hall tr n (or_intror Hn)) ltac:(discriminate)
                (Some e) w1) as (e2 & w2 & tr2 & Hw & Hc2 & Ht2 & He2).
    exists e2, w2, tr2; split; [exact Hw|split; [congruence|]].
    split; [exact Ht2|exact He2].
Qed.
End Resolution.

Section Orchestration.
Variable upstream : list event -> string -> upcall -> exc Response.

Lemma bind_exc {A B} (c : M A) (k : A -> M B) (w w1 : world) (e : Error) :
  c w = (Exc e, w1) -> bind c k w = (Exc e, w1).
Proof. intros H; unfold bind; now rewrite H. Qed.

Lemma keepsCache_probe (name : string) : keepsCache (probe upstream name).
Proof.
  unfold probe; apply keepsCache_bind;
    [apply keepsCache_call|intros; apply keepsCache_ret].
Qed.

Lemma candidate_nonempty (n : string) : In n modelNames -> n <> "".
Proof.
  simpl; intros H; repeat destruct H as [<-|H]; try discriminate; contradiction.
Qed.

(** [resolveModel] by the state of the cache. *)
Lemma resolveModel_cases (w : world) :
  resolveModel upstream w
  = match cachedModelName w with
    | Some n =>
        if String.eqb n "" then walkAll upstream w
        else match retryM (probe upstream n) 2 500 w with
             | (Ok _, w1) => (Ok n, w1)
             | (Exc _, w1) => walkAll upstream (mkWorld None (trace w1))
             end
    | None => walkAll upstream w
    end.
Proof.
  unfold resolveModel, cachedProbe, getCache, bind, try_, setCache, ret.
  destruct (cachedModelName w) as [n|]; [|reflexivity].
  destruct (String.eqb n ""); [reflexivity|].
  destruct (retryM (probe upstream n) 2 500 w) as [[r|e] w1]; reflexivity.
Qed.

Lemma walkAll_ok (w n : _) (w1 : world) :
  walkAll upstream w = (Ok n, w1) ->
  cachedModelName w1 = Some n /\ In n modelNames.
Proof.
  unfold walkAll, bind.
  pose proof (walk_result upstream modelNames None w) as Hw.
  destruct (walk upstream modelNames None w) as [[[[n'|] le]|e] w2];
    try contradiction; simpl; intros H; inversion H; subst; exact Hw.
Qed.

(** [chat] on a well-formed request whose core fails with [e]. *)
Lemma chat_core_fails (req : Request) (m key : string) (w w1 : world)
    (e : Error) :
  req_message req = Some m -> trim m <> "" -> key <> "" ->
  chatCore upstream m (req_history req) w = (Exc e, w1) ->
  chat upstream req (Some key) w
  = (mkHttpResponse 500 (ErrorBody (errorMessageOf e)), w1).
Proof.
  intros Hm Ht Hk Hc; unfold chat; rewrite Hm.
  apply String.eqb_neq in Ht, Hk; rewrite Ht, Hk, Hc; reflexivity.
Qed.
End Orchestration.

(** ** Model resolution and the no-model failure *)

(** C2 (as stated, refuted): when every candidate fails with a "not
    found" error, the request is answered with the Overloaded text, not
    the NotFound text of that error. *)
Lemma not_found_everywhere_reported_overloaded :
  isOverloaded (err "404 model not found") = false
  /\ errorMessageOf (err "404 model not found") = msgNotFound
  /\ fst (chat notFoundEverywhere (mkRequest (Some "hi") None) (Some "key")
            (mkWorld None []))
     = mkHttpResponse 500 (ErrorBody msgOverloaded).
Proof. repeat split; vm_compute; reflexivity. Qed.

(** C2 (amended): when every probe of a candidate fails, with any errors
    (which may differ from call to call), resolution throws the composite
    "No available Gemini model found. All models are either unavailable or
    overloaded. Last error: ..." message naming the error of the last
    probe call, made on the last candidate, and leaves the cache empty;
    because that message contains "overloaded", the request is answered
    500 with the Overloaded text whatever the last error was. *)
Theorem no_model_error_is_overloaded
    (upstream : list event -> string -> upcall -> exc Response)
    (req : Request) (msg key : string) (w : world) :
  req_message req = Some msg -> trim msg <> "" -> key <> "" ->
  (cachedModelName w = None
   \/ exists c, cachedModelName w = Some c /\ In c modelNames) ->
  (forall tr name, In name modelNames ->
     exists e, upstream tr name (GenerateContent "test") = Exc e) ->
  exists e w1 tr,
    resolveModel upstream w = (Exc (err (noModelMessage (Some e))), w1)
    /\ cachedModelName w1 = None
    /\ trace w1 = (tr ++ [Call "gemini-2.0-flash" (GenerateContent "test")])%list
    /\ upstream tr "gemini-2.0-flash" (GenerateContent "test") = Exc e
    /\ chat upstream req (Some key) w
       = (mkHttpResponse 500 (ErrorBody msgOverloaded), w1).
Proof.
  intros Hm Ht Hk Hcache Hall.
  assert (Hwalk : forall w0, exists e w1 tr,
            walkAll upstream w0 = (Exc (err (noModelMessage (Some e))), w1)
            /\ cachedModelName w1 = cachedModelName w0
            /\ trace w1 = (tr ++ [Call "gemini-2.0-flash" (GenerateContent "test")])%list
            /\ upstream tr "gemini-2.0-flash" (GenerateContent "test") = Exc e).
  { intros w0; unfold walkAll, bind.
    destruct (walk_all_fail upstream modelNames Hall ltac:(discriminate) None w0)
      as (e & w1 & tr & Hw & Hc & Htr & He).
    rewrite Hw; exists e, w1, tr; auto. }
  assert (Hres : exists e w1 tr,
            resolveModel upstream w = (Exc (err (noModelMessage (Some e))), w1)
            /\ cachedModelName w1 = None
            /\ trace w1 = (tr ++ [Call "gemini-2.0-flash" (GenerateContent "test")])%list
            /\ upstream tr "gemini-2.0-flash" (GenerateContent "test") = Exc e).
  { rewrite resolveModel_cases.
    destruct Hcache as [Hn | (c & Hc & Hin)].
    - rewrite Hn; destruct (Hwalk w) as (e & w1 & tr & Hw & Hc1 & Htr & He).
      exists e, w1, tr; split; [exact Hw|split; [congruence|auto]].
    - rewrite Hc.
      pose proof (candidate_nonempty c Hin) as Hne.
      apply String.eqb_neq in Hne; rewrite Hne.
      destruct (probe_fails upstream c (fun tr => Hall tr c Hin) w)
        as (e0 & w1 & tr0 & Hp & _).
      rewrite Hp.
      destruct (Hwalk (mkWorld None (trace w1))) as (e & w2 & tr & Hw & Hc2 & Htr & He).
      exists e, w2, tr; auto. }
  destruct Hres as (e & w1 & tr & Hres & Hc1 & Htr & He).
  exists e, w1, tr; do 4 (split; [assumption|]).
  rewrite (chat_core_fails upstream req msg key w w1
             (err (noModelMessage (Some e))) Hm Ht Hk).
  - now rewrite noModelMessage_overloaded.
  - unfold chatCore; cbv zeta; apply bind_exc; exact Hres.
Qed.

(** C9: a successful resolution leaves its model (a non-empty name) in
    [cachedModelName], and invoking a model does not touch the cache.  With
    a non-empty cached name whose probe succeeds, resolution returns that
    name, keeps it cached and makes no call but probes of it (and backoff
    sleeps): the candidate list is not walked.  The walk happens only from
    an empty cache, or after a failed probe of the cached name, which
    clears the cache first. *)
Theorem resolveModel_cached_fast_path
    (upstream : list event -> string -> upcall -> exc Response) (w : world) :
  (forall n w1, resolveModel upstream w = (Ok n, w1) ->
     cachedModelName w1 = Some n /\ n <> "")
  /\ (forall n r w1, cachedModelName w = Some n -> n <> "" ->
        retryM (probe upstream n) 2 500 w = (Ok r, w1) ->
        resolveModel upstream w = (Ok n, w1)
        /\ cachedModelName w1 = Some n
        /\ exists new, trace w1 = (trace w ++ new)%list
                       /\ callsOnly n (GenerateContent "test") new)
  /\ ((cachedModelName w = None \/ cachedModelName w = Some "") ->
      resolveModel upstream w = walkAll upstream w)
  /\ (forall n e w1, cachedModelName w = Some n -> n <> "" ->
        retryM (probe upstream n) 2 500 w = (Exc e, w1) ->
        cachedModelName w1 = Some n
        /\ resolveModel upstream w = walkAll upstream (mkWorld None (trace w1)))
  /\ (forall n trimmedHistory conversationHistory msg,
        keepsCache (invoke upstream n trimmedHistory conversationHistory msg)).
Proof.
  split; [|split; [|split; [|split]]].
  - intros n w1; rewrite resolveModel_cases.
    destruct (cachedModelName w) as [m|] eqn:Hc.
    + destruct (String.eqb m "") eqn:He.
      * intros H; destruct (walkAll_ok upstream w n w1 H) as [H1 H2].
        split; [exact H1|now apply candidate_nonempty].
      * pose proof (keepsCache_retryM (probe upstream m) 2 500
                      (keepsCache_probe upstream m) w) as Hk.
        destruct (retryM (probe upstream m) 2 500 w) as [[r|e] w2].
        -- intros H; inversion H; subst; simpl in Hk.
           apply String.eqb_neq in He; split; congruence.
        -- intros H; destruct (walkAll_ok upstream _ n w1 H) as [H1 H2].
           split; [exact H1|now apply candidate_nonempty].
    + intros H; destruct (walkAll_ok upstream w n w1 H) as [H1 H2].
      split; [exact H1|now apply candidate_nonempty].
  - intros n r w1 Hc Hne Hp.
    rewrite resolveModel_cases, Hc.
    apply String.eqb_neq in Hne as Hne'; rewrite Hne', Hp.
    destruct (retryM_calls (probe upstream n) n (GenerateContent "test")
                2 500 (probe_one upstream n) w) as (r' & new & Hr & Hcalls & _).
    rewrite Hp in Hr; inversion Hr; subst; simpl.
    split; [reflexivity|split; [exact Hc|]].
    exists new; split; [reflexivity|exact Hcalls].
  - intros [Hn | Hn]; rewrite resolveModel_cases, Hn; reflexivity.
  - intros n e w1 Hc Hne Hp.
    pose proof (keepsCache_retryM (probe upstream n) 2 500
                  (keepsCache_probe upstream n) w) as Hk.
    rewrite Hp in Hk; simpl in Hk.
    split; [congruence|].
    rewrite resolveModel_cases, Hc.
    apply String.eqb_neq in Hne; rewrite Hne, Hp; reflexivity.
  - intros; apply keepsCache_invoke.
Qed.

(** ** The fallback path *)

(** C8: when the primary (chat or direct) path throws, for whatever
    reason, [invoke] is exactly one run of the fallback: the flattened
    transcript prompt sent by [generateContent] under [retryWithBackoff]
    with 3 attempts and a 1000 ms base, making no call but at most three
    such calls (and backoff sleeps); its result, a failure included, is
    the result of [invoke].  A failure of the core reaches the handler's
    [catch], which answers 500 with its classification. *)
Theorem invoke_falls_back_once
    (upstream : list event -> string -> upcall -> exc Response)
    (model : string) (trimmedHistory : list Message)
    (conversationHistory : list Turn) (msg : string) (w w1 : world)
    (chatError : Error) :
  primaryPath upstream model conversationHistory msg w = (Exc chatError, w1) ->
  invoke upstream model trimmedHistory conversationHistory msg w
  = fallbackPath upstream model (flattenPrompt trimmedHistory msg) w1
  /\ (exists r new,
        fallbackPath upstream model (flattenPrompt trimmedHistory msg) w1
        = (r, mkWorld (cachedModelName w1) (trace w1 ++ new)%list)
        /\ callsOnly model (GenerateContent (flattenPrompt trimmedHistory msg)) new
        /\ (ncalls new <= 3)%nat)
  /\ (forall req m key e w2,
        req_message req = Some m -> trim m <> "" -> key <> "" ->
        chatCore upstream m (req_history req) w = (Exc e, w2) ->
        chat upstream req (Some key) w
        = (mkHttpResponse 500 (ErrorBody (errorMessageOf e)), w2)).
Proof.
  intros Hprim.
  split; [|split].
  - unfold invoke, bind, try_; rewrite Hprim; reflexivity.
  - destruct (retryM_calls (call upstream model
                (GenerateContent (flattenPrompt trimmedHistory msg)))
                model (GenerateContent (flattenPrompt trimmedHistory msg))
                3 1000 (call_one upstream model _) w1)
      as (r0 & new & Hr & Hcalls & Hn).
    unfold fallbackPath, bind; rewrite Hr.
    destruct r0 as [[[t|e]|]|e]; simpl;
      eexists; exists new; split; try reflexivity; split; auto.
  - intros req m key e w2 Hm Ht Hk Hc.
    exact (chat_core_fails upstream req m key w w2 e Hm Ht Hk Hc).
Qed.

(** * Instances of the theorems on concrete inputs *)

Lemma buildHistoryForGemini_spec_witness :
  length (buildHistoryForGemini
            (Some [mkMessage "user" "hi"; mkMessage "bot" "hello"]) "bye") = 3%nat.
Proof.
  destruct (buildHistoryForGemini_spec
              [mkMessage "user" "hi"; mkMessage "bot" "hello"] "bye") as (_ & Hlen & _).
  - apply Forall_cons; [left; reflexivity|].
    apply Forall_cons; [right; reflexivity|apply Forall_nil].
  - exact Hlen.
Defined.

Lemma buildHistoryForGemini_drops_unknown_witness :
  length (buildHistoryForGemini
            (Some [mkMessage "user" "hi"; mkMessage "system" "x"]) "bye") = 2%nat.
Proof.
  destruct (buildHistoryForGemini_drops_unknown
              [mkMessage "user" "hi"; mkMessage "system" "x"] "bye") as (_ & Hlen & _).
  - apply Exists_cons_tl, Exists_cons_hd; split; discriminate.
  - exact Hlen.
Defined.

Lemma retryWithBackoff_policy_witness :
  retryWithBackoff logSleep
    (op_of (fun i => match i with
                     | O | S O => Exc (err "503 Service Unavailable")
                     | _ => Ok 7%nat
                     end)) 3 1000 []
  = (Returned 7%nat, backoff_log 1000 2).
Proof.
  destruct (retryWithBackoff_policy
              (fun i => match i with
                        | O | S O => Exc (err "503 Service Unavailable")
                        | _ => Ok 7%nat
                        end) 3 1000) as (_ & H & _).
  apply (H 2%nat).
  - lia.
  - intros i Hi; destruct i as [|[|i]]; [reflexivity|reflexivity|lia].
  - right; reflexivity.
Defined.

Lemma isOverloaded_case_sensitive_witness :
  retryWithBackoff logSleep
    (op_of (fun i => match i with O => Exc (err "OVERLOADED") | _ => Ok tt end))
    3 1000 []
  = (Threw (err "OVERLOADED"), [Exec 0]).
Proof.
  destruct (isOverloaded_case_sensitive
              (fun i => match i with O => Exc (err "OVERLOADED") | _ => Ok tt end)
              3 1000 "OVERLOADED") as (_ & H & _).
  apply H; [lia|reflexivity|vm_compute; reflexivity|vm_compute; reflexivity
            |vm_compute; reflexivity].
Defined.

Lemma chat_preconditions_witness :
  chat notFoundEverywhere (mkRequest (Some "  ") None) None (mkWorld None [])
  = (mkHttpResponse 400 (ErrorBody "message is required"), mkWorld None [])
  /\ chat notFoundEverywhere (mkRequest (Some "hi") None) None (mkWorld None [])
     = (mkHttpResponse 500 (ErrorBody "Gemini API key not configured"),
        mkWorld None []).
Proof.
  split.
  - apply (chat_preconditions notFoundEverywhere (mkRequest (Some "  ") None)
             None (mkWorld None [])).
    right; exists "  "; split; [reflexivity|vm_compute; reflexivity].
  - apply (chat_preconditions notFoundEverywhere (mkRequest (Some "hi") None)
             None (mkWorld None [])) with (s := "hi").
    + reflexivity.
    + vm_compute; discriminate.
    + left; reflexivity.
Defined.

Lemma trimHistory_last_30_witness :
  trimHistory (Some [mkMessage "user" "a"]) = [mkMessage "user" "a"].
Proof.
  destruct (trimHistory_last_30 notFoundEverywhere [mkMessage "user" "a"] "hi")
    as (_ & _ & _ & H & _).
  apply H; simpl; lia.
Defined.

Lemma no_model_error_is_overloaded_witness :
  exists e w1 tr,
    resolveModel overloadedThenMissing (mkWorld None [])
    = (Exc (err (noModelMessage (Some e))), w1)
    /\ cachedModelName w1 = None
    /\ trace w1 = (tr ++ [Call "gemini-2.0-flash" (GenerateContent "test")])%list
    /\ overloadedThenMissing tr "gemini-2.0-flash" (GenerateContent "test") = Exc e
    /\ chat overloadedThenMissing (mkRequest (Some "hi") None) (Some "key")
         (mkWorld None [])
       = (mkHttpResponse 500 (ErrorBody msgOverloaded), w1).
Proof.
  apply (no_model_error_is_overloaded overloadedThenMissing
           (mkRequest (Some "hi") None) "hi" "key" (mkWorld None [])).
  - reflexivity.
  - vm_compute; discriminate.
  - discriminate.
  - left; reflexivity.
  - intros tr name _; unfold overloadedThenMissing.
    destruct (last tr (Call "" (GenerateContent ""))); eexists; reflexivity.
Defined.

Lemma resolveModel_cached_fast_path_witness :
  resolveModel (answersWith "ok") (mkWorld (Some "gemini-2.5-pro") [])
  = (Ok "gemini-2.5-pro",
     mkWorld (Some "gemini-2.5-pro") [Call "gemini-2.5-pro" (GenerateContent "test")]).
Proof.
  destruct (resolveModel_cached_fast_path (answersWith "ok")
              (mkWorld (Some "gemini-2.5-pro") [])) as (_ & H & _).
  apply (H "gemini-2.5-pro" (Some tt)).
  - reflexivity.
  - discriminate.
  - reflexivity.
Defined.

Lemma invoke_falls_back_once_witness :
  invoke (chatBroken "ok") "gemini-2.5-flash" [mkMessage "user" "a"]
    (buildHistoryForGemini (Some [mkMessage "user" "a"]) "hi") "hi"
    (mkWorld None [])
  = fallbackPath (chatBroken "ok") "gemini-2.5-flash"
      (flattenPrompt [mkMessage "user" "a"] "hi")
      (mkWorld None [Call "gemini-2.5-flash" (StartChat [mkTurn "user" "a"])]).
Proof.
  apply (invoke_falls_back_once (chatBroken "ok") "gemini-2.5-flash"
           [mkMessage "user" "a"]
           (buildHistoryForGemini (Some [mkMessage "user" "a"]) "hi") "hi"
           (mkWorld None [])
           (mkWorld None [Call "gemini-2.5-flash" (StartChat [mkTurn "user" "a"])])
           (err "chat unsupported")).
  vm_compute; reflexivity.
Defined.

(** * Further properties of [server.js] *)

(** ** Total backoff time *)

Lemma sleptTotal_app (a b : list attempt_event) :
  sleptTotal (a ++ b) = sleptTotal a + sleptTotal b.
Proof.
  induction a as [|ev a IH]; simpl; [reflexivity|].
  destruct ev; rewrite IH; lia.
Qed.

Lemma sleptTotal_backoff_log (baseDelay : Z) (n : nat) :
  sleptTotal (backoff_log baseDelay n) = baseDelay * (2 ^ Z.of_nat n - 1).
Proof.
  unfold backoff_log; rewrite sleptTotal_app.
  replace (sleptTotal [Exec n]) with 0 by reflexivity.
  induction n as [|n IH].
  - simpl; lia.
  - rewrite Z.add_0_r in IH |- *.
    rewrite seq_S, flat_map_app, sleptTotal_app, IH.
    cbn [flat_map sleptTotal fold_right app].
    rewrite Nat2Z.inj_succ, Z.pow_succ_r by lia.
    rewrite Nat.add_0_l; ring.
Qed.

(** A run of [retryWithBackoff] that stops at attempt [n] sleeps
    [baseDelay * (2^n - 1)] in total, at most
    [baseDelay * (2^(maxRetries-1) - 1)] for a non-negative base. *)
Theorem retryWithBackoff_total_sleep {A} (f : nat -> exc A)
    (maxRetries baseDelay : Z) (n : nat) :
  Z.of_nat n < maxRetries ->
  (forall i, (i < n)%nat -> overloadFailure (f i) = true) ->
  (Z.of_nat n = maxRetries - 1 \/ overloadFailure (f n) = false) ->
  sleptTotal (snd (retryWithBackoff logSleep (op_of f) maxRetries baseDelay []))
  = baseDelay * (2 ^ Z.of_nat n - 1)
  /\ (0 <= baseDelay ->
      sleptTotal (snd (retryWithBackoff logSleep (op_of f) maxRetries baseDelay []))
      <= baseDelay * (2 ^ (maxRetries - 1) - 1)).
Proof.
  intros Hlt Hpre Hstop.
  assert (Hrun : snd (retryWithBackoff logSleep (op_of f) maxRetries baseDelay [])
                 = backoff_log baseDelay n).
  { unfold retryWithBackoff.
    rewrite (retry_loop_log f maxRetries baseDelay n 0 (Z.to_nat maxRetries) []);
      [reflexivity|reflexivity|exact Hlt|lia|intros i Hi; apply Hpre; lia|exact Hstop]. }
  rewrite Hrun, sleptTotal_backoff_log.
  split; [reflexivity|intros Hb].
  apply Z.mul_le_mono_nonneg_l; [exact Hb|].
  apply Z.sub_le_mono_r, Z.pow_le_mono_r; lia.
Qed.

(** ** Model names of the listing *)

Lemma replaceFirst_absent (s pat rep : string) :
  includes s pat = false -> replaceFirst s pat rep = s.
Proof.
  induction s as [|c s IH]; intros H.
  - simpl in H; destruct pat; [discriminate|reflexivity].
  - change (includes (String c s) pat)
      with (startsWith (String c s) pat || includes s pat) in H.
    apply orb_false_iff in H as [H1 H2].
    simpl replaceFirst; rewrite H1, IH by exact H2; reflexivity.
Qed.

(** [name.replace('models/', '')] turns a listed "models/<id>" into
    "<id>", leaves a name without "models/" as it is, and gives "" for a
    missing name. *)
Theorem modelNameOf_strips_prefix (x : string) :
  modelNameOf (Some ("models/" ++ x)) = x
  /\ (includes x "models/" = false -> modelNameOf (Some x) = x)
  /\ modelNameOf None = "".
Proof.
  split; [|split].
  - unfold modelNameOf; simpl.
    reflexivity.
  - intros H; unfold modelNameOf; now apply replaceFirst_absent.
  - reflexivity.
Qed.

(** ** The chat handler: replies, cache and upstream traffic *)

Lemma bind_ok_inv {A B} (c : M A) (k : A -> M B) (w w2 : world) (b : B) :
  bind c k w = (Ok b, w2) ->
  exists a w1, c w = (Ok a, w1) /\ k a w1 = (Ok b, w2).
Proof.
  unfold bind; destruct (c w) as [[a|e] w1]; intros H; [|discriminate].
  now exists a, w1.
Qed.

Lemma ncalls_app (a b : list event) : ncalls (a ++ b) = (ncalls a + ncalls b)%nat.
Proof. unfold ncalls; now rewrite filter_app, length_app. Qed.

Lemma keeps_wf {A} (c : M A) (w : world) :
  keepsCache c -> cacheWellFormed w -> cacheWellFormed (snd (c w)).
Proof. intros Hk Hw; specialize (Hk w); unfold cacheWellFormed in *; now rewrite Hk. Qed.

Section ChatProperties.
Variable upstream : list event -> string -> upcall -> exc Response.

Lemma replyOf_nonempty (resp : Response) (w w1 : world) (t : string) :
  replyOf resp w = (Ok t, w1) -> t <> "".
Proof.
  destruct resp as [s|e]; simpl; [|discriminate].
  destruct (String.eqb_spec s "") as [_|Hs]; intros H; inversion H; subst;
    [discriminate|exact Hs].
Qed.

Lemma reply_chain_nonempty {A} (c : M A) (k : A -> M Response)
    (w w2 : world) (t : string) :
  (r <- c ;; resp <- k r ;; replyOf resp) w = (Ok t, w2) -> t <> "".
Proof.
  intros H.
  apply bind_ok_inv in H as (r & w1 & _ & H).
  apply bind_ok_inv in H as (resp & w3 & _ & H).
  exact (replyOf_nonempty resp w3 w2 t H).
Qed.

Lemma primaryPath_nonempty (model : string) (conv : list Turn) (msg : string)
    (w w1 : world) (t : string) :
  primaryPath upstream model conv msg w = (Ok t, w1) -> t <> "".
Proof.
  unfold primaryPath.
  destruct (0 <? length (removelast conv))%nat.
  - intros H; apply bind_ok_inv in H as (u & w2 & _ & H).
    exact (reply_chain_nonempty _ _ _ _ _ H).
  - apply reply_chain_nonempty.
Qed.

Lemma invoke_nonempty (model : string) (th : list Message) (conv : list Turn)
    (msg : string) (w w1 : world) (t : string) :
  invoke upstream model th conv msg w = (Ok t, w1) -> t <> "".
Proof.
  unfold invoke, bind, try_.
  destruct (primaryPath upstream model conv msg w) as [[s|e] w2] eqn:E.
  - intros H; inversion H; subst.
    exact (primaryPath_nonempty _ _ _ _ _ _ E).
  - apply reply_chain_nonempty.
Qed.

Lemma chatCore_nonempty (message : string) (h : option (list Message))
    (w w1 : world) (t : string) :
  chatCore upstream message h w = (Ok t, w1) -> t <> "".
Proof.
  unfold chatCore; intros H.
  apply bind_ok_inv in H as (n & w2 & _ & H).
  exact (invoke_nonempty _ _ _ _ _ _ _ H).
Qed.

(** A 200 answer of the chat handler always carries a non-empty reply;
    every other answer is a 400 or a 500 with an error body. *)
Theorem chat_response_shape (req : Request) (apiKey : option string) (w : world) :
  let r := fst (chat upstream req apiKey w) in
  (status r = 200 /\ exists t, body r = Reply t /\ t <> "")
  \/ ((status r = 400 \/ status r = 500) /\ exists e, body r = ErrorBody e).
Proof.
  unfold chat.
  destruct (req_message req) as [message|];
    [|right; split; [left; reflexivity|eexists; reflexivity]].
  destruct (String.eqb (trim message) "");
    [right; split; [left; reflexivity|eexists; reflexivity]|].
  destruct (match apiKey with Some k => String.eqb k "" | None => true end);
    [right; split; [right; reflexivity|eexists; reflexivity]|].
  destruct (chatCore upstream message (req_history req) w) as [[t|e] w1] eqn:E.
  - left; split; [reflexivity|].
    exists t; split; [reflexivity|exact (chatCore_nonempty _ _ _ _ _ E)].
  - right; split; [right; reflexivity|eexists; reflexivity].
Qed.

Lemma walk_wf (names : list string) :
  incl names modelNames ->
  forall lastError w, cacheWellFormed w ->
    cacheWellFormed (snd (walk upstream names lastError w)).
Proof.
  induction names as [|name rest IH]; intros Hincl lastError w Hw; [exact Hw|].
  simpl walk; unfold bind at 1.
  pose proof (keepsCache_try _ (keepsCache_retryM _ 2 500 (keepsCache_probe upstream name)) w)
    as Hk.
  destruct (try_ (retryM (probe upstream name) 2 500) w) as [[r|e] w1] eqn:E;
    simpl in Hk |- *; [|unfold cacheWellFormed in *; now rewrite Hk].
  destruct r as [u|e].
  - right; exists name; split; [reflexivity|apply Hincl; left; reflexivity].
  - apply IH; [intros x Hx; apply Hincl; right; exact Hx|].
    unfold cacheWellFormed in *; now rewrite Hk.
Qed.

Lemma walkAll_wf (w : world) :
  cacheWellFormed w -> cacheWellFormed (snd (walkAll upstream w)).
Proof.
  intros Hw; unfold walkAll, bind.
  pose proof (walk_wf modelNames (incl_refl _) None w Hw) as H.
  destruct (walk upstream modelNames None w) as [[[[n|] le]|e] w1]; exact H.
Qed.

Lemma resolveModel_wf (w : world) :
  cacheWellFormed w -> cacheWellFormed (snd (resolveModel upstream w)).
Proof.
  intros Hw; rewrite resolveModel_cases.
  destruct (cachedModelName w) as [n|] eqn:C; [|now apply walkAll_wf].
  destruct (String.eqb n ""); [now apply walkAll_wf|].
  pose proof (keepsCache_retryM _ 2 500 (keepsCache_probe upstream n) w) as Hk.
  destruct (retryM (probe upstream n) 2 500 w) as [[r|e] w1]; simpl in Hk |- *.
  - unfold cacheWellFormed in *; rewrite Hk; exact Hw.
  - apply walkAll_wf; left; reflexivity.
Qed.

Lemma chatCore_wf (message : string) (h : option (list Message)) (w : world) :
  cacheWellFormed w -> cacheWellFormed (snd (chatCore upstream message h w)).
Proof.
  intros Hw; unfold chatCore, bind.
  pose proof (resolveModel_wf w Hw) as H1.
  destruct (resolveModel upstream w) as [[n|e] w1]; simpl in H1 |- *; [|exact H1].
  apply keeps_wf; [apply keepsCache_invoke|exact H1].
Qed.

(** The chat handler keeps [cachedModelName] empty or on one of the six
    candidates: whatever the request and the answers of the service, a
    well-formed cache stays well formed. *)
Theorem chat_keeps_cache_wellformed (req : Request) (apiKey : option string)
    (w : world) :
  cacheWellFormed w -> cacheWellFormed (snd (chat upstream req apiKey w)).
Proof.
  intros Hw; unfold chat.
  destruct (req_message req) as [message|]; [|exact Hw].
  destruct (String.eqb (trim message) ""); [exact Hw|].
  destruct (match apiKey with Some k => String.eqb k "" | None => true end);
    [exact Hw|].
  pose proof (chatCore_wf message (req_history req) w Hw) as H.
  destruct (chatCore upstream message (req_history req) w) as [[t|e] w1]; exact H.
Qed.

(** The probes of a walk: only [generateContent("test")] on its
    candidates and backoff sleeps, at most two calls per candidate. *)
Lemma walk_trace (names : list string) : forall lastError w,
  exists new,
    trace (snd (walk upstream names lastError w)) = (trace w ++ new)%list
    /\ Forall (fun ev => (exists n, In n names /\ ev = Call n (GenerateContent "test"))
                         \/ exists d, ev = Sleep d) new
    /\ (ncalls new <= 2 * length names)%nat.
Proof.
  induction names as [|name rest IH]; intros lastError w.
  - exists []; simpl; rewrite app_nil_r; auto.
  - simpl walk; unfold bind at 1, try_.
    destruct (retryM_calls (probe upstream name) name (GenerateContent "test") 2 500
                (probe_one upstream name) w) as (r & new1 & E & Hc & Hn).
    rewrite E.
    assert (Hc' : Forall (fun ev => (exists n, In n (name :: rest)
                                      /\ ev = Call n (GenerateContent "test"))
                                    \/ exists d, ev = Sleep d) new1).
    { eapply Forall_impl; [|exact Hc]; intros ev [->|Hs]; [|right; exact Hs].
      left; exists name; split; [left|]; reflexivity. }
    change (Z.to_nat 2) with 2%nat in Hn.
    destruct r as [u|e].
    + exists new1; simpl; split; [reflexivity|split; [exact Hc'|lia]].
    + destruct (IH (Some e) (mkWorld (cachedModelName w) (trace w ++ new1)))
        as (new2 & T & Hc2 & Hn2).
      exists (new1 ++ new2)%list; split; [rewrite T; simpl; symmetry; apply app_assoc|].
      split; [apply Forall_app; split; [exact Hc'|]|].
      * eapply Forall_impl; [|exact Hc2]; intros ev [(n & Hin & ->)|Hs];
          [left; exists n; split; [right|]|right]; auto.
      * rewrite ncalls_app; simpl length; lia.
Qed.

Lemma walkAll_trace (w : world) :
  exists new,
    trace (snd (walkAll upstream w)) = (trace w ++ new)%list
    /\ Forall (fun ev => (exists n, In n modelNames /\ ev = Call n (GenerateContent "test"))
                         \/ exists d, ev = Sleep d) new
    /\ (ncalls new <= 12)%nat.
Proof.
  destruct (walk_trace modelNames None w) as (new & T & Hc & Hn).
  exists new; split; [|split; [exact Hc|exact Hn]].
  rewrite <- T; unfold walkAll, bind.
  destruct (walk upstream modelNames None w) as [[[[n|] le]|e] w1]; reflexivity.
Qed.

(** Resolving the model only sends the liveness probe
    [generateContent("test")], to the cached name or to the candidates,
    with backoff sleeps in between, and at most 14 calls in all: two for
    the cached name, two for each of the six candidates. *)
Theorem resolveModel_only_probes (w : world) :
  exists new,
    trace (snd (resolveModel upstream w)) = (trace w ++ new)%list
    /\ Forall (fun ev => (exists n, (cachedModelName w = Some n \/ In n modelNames)
                                    /\ ev = Call n (GenerateContent "test"))
                         \/ exists d, ev = Sleep d) new
    /\ (ncalls new <= 14)%nat.
Proof.
  assert (Hw : forall w', trace w' = trace w ->
    exists new,
      trace (snd (walkAll upstream w')) = (trace w ++ new)%list
      /\ Forall (fun ev => (exists n, (cachedModelName w = Some n \/ In n modelNames)
                                      /\ ev = Call n (GenerateContent "test"))
                           \/ exists d, ev = Sleep d) new
      /\ (ncalls new <= 14)%nat).
  { intros w' Tw.
    destruct (walkAll_trace w') as (new & T & Hc & Hn).
    exists new; rewrite T, Tw; split; [reflexivity|split; [|lia]].
    eapply Forall_impl; [|exact Hc]; intros ev [(n & Hin & ->)|Hs];
      [left; exists n; split; [right|]|right]; auto. }
  rewrite resolveModel_cases.
  destruct (cachedModelName w) as [c|] eqn:C; [|now apply Hw].
  destruct (String.eqb c ""); [now apply Hw|].
  destruct (retryM_calls (probe upstream c) c (GenerateContent "test") 2 500
              (probe_one upstream c) w) as (r & new1 & E & Hc & Hn).
  change (Z.to_nat 2) with 2%nat in Hn.
  rewrite E.
  assert (Hc' : Forall (fun ev => (exists n, (Some c = Some n \/ In n modelNames)
                                    /\ ev = Call n (GenerateContent "test"))
                                  \/ exists d, ev = Sleep d) new1).
  { eapply Forall_impl; [|exact Hc]; intros ev [->|Hs]; [|right; exact Hs].
    left; exists c; split; [left|]; reflexivity. }
  destruct r as [u|e].
  - exists new1; simpl; split; [reflexivity|split; [exact Hc'|lia]].
  - destruct (walkAll_trace (mkWorld None (trace w ++ new1)))
      as (new2 & T & Hc2 & Hn2).
    exists (new1 ++ new2)%list; cbv beta iota; cbn [trace cachedModelName].
    rewrite T; simpl.
    split; [symmetry; apply app_assoc|].
    split; [apply Forall_app; split; [exact Hc'|]|].
    + eapply Forall_impl; [|exact Hc2]; intros ev [(n & Hin & ->)|Hs];
        [left; exists n; split; [right|]|right]; auto.
    + rewrite ncalls_app; lia.
Qed.
End ChatProperties.

Section PrimaryPath.
Variable upstream : list event -> string -> upcall -> exc Response.

Lemma snd_bind_pure {A B} (c : M A) (k : A -> M B) (w : world) :
  (forall a w', snd (k a w') = w') -> snd (bind c k w) = snd (c w).
Proof.
  intros Hk; unfold bind; destruct (c w) as [[a|e] w1]; [apply Hk|reflexivity].
Qed.

Lemma reply_tail_pure (r : option Response) (w : world) :
  snd ((resp <- responseOf r ;; replyOf resp) w) = w.
Proof.
  rewrite snd_bind_pure by (intros resp w'; destruct resp; reflexivity).
  destruct r; reflexivity.
Qed.

(** The primary attempt on the conversation built from [history] and the
    new message [m]: with no earlier turn to carry it sends
    [generateContent(m)] only (at most three times); otherwise it first
    opens a chat session seeded with exactly the translated earlier turns,
    then sends [m] on it (at most three times).  It never touches
    [cachedModelName]. *)
Theorem primaryPath_calls (model : string) (h : list Message) (m : string)
    (w : world) :
  exists new,
    snd (primaryPath upstream model (buildHistoryForGemini (Some h) m) m w)
      = mkWorld (cachedModelName w) (trace w ++ new)
    /\ (filter recognised h = [] ->
        callsOnly model (GenerateContent m) new /\ (ncalls new <= 3)%nat)
    /\ (filter recognised h <> [] ->
        exists rest, new = Call model (StartChat (flat_map turnOf h)) :: rest
                     /\ callsOnly model (SendMessage m) rest
                     /\ (ncalls rest <= 3)%nat).
Proof.
  unfold primaryPath; rewrite buildHistory_flat, removelast_last, last_last.
  rewrite length_flat_map_turnOf; cbn [part_text].
  destruct (filter recognised h) as [|x xs] eqn:F.
  - change (0 <? length [])%nat with false; cbv iota.
    rewrite snd_bind_pure by (intros a w'; apply reply_tail_pure).
    destruct (retryM_calls (call upstream model (GenerateContent m)) model
                (GenerateContent m) 3 1000 (call_one upstream model (GenerateContent m)) w)
      as (r & new & E & Hc & Hn).
    exists new; rewrite E; split; [reflexivity|split; [intros _; split; [exact Hc|exact Hn]|]].
    intros H; contradiction.
  - change (0 <? length (x :: xs))%nat with true; cbv iota.
    unfold bind at 1, call at 1.
    set (w0 := mkWorld (cachedModelName w)
                 (trace w ++ [Call model (StartChat (flat_map turnOf h))])).
    destruct (upstream (trace w) model (StartChat (flat_map turnOf h))) as [r0|e0].
    + rewrite snd_bind_pure by (intros a w'; apply reply_tail_pure).
      destruct (retryM_calls (call upstream model (SendMessage m)) model
                  (SendMessage m) 3 1000 (call_one upstream model (SendMessage m)) w0)
        as (r & new & E & Hc & Hn).
      exists (Call model (StartChat (flat_map turnOf h)) :: new).
      rewrite E; split; [subst w0; simpl; rewrite <- app_assoc; reflexivity|].
      split; [intros H; discriminate|].
      intros _; exists new; auto.
    + exists [Call model (StartChat (flat_map turnOf h))]; simpl.
      split; [reflexivity|split; [intros H; discriminate|]].
      intros _; exists []; split; [reflexivity|split; [unfold callsOnly; apply Forall_nil|unfold ncalls; simpl; lia]].
Qed.
End PrimaryPath.

(** ** [/api/list-models] and [/api/test-models] *)

Lemma substring_0_length (t : string) : forall n,
  String.length (substring 0 n t) = Nat.min n (String.length t).
Proof.
  induction t as [|c t IH]; intros [|n]; simpl; auto.
Qed.

Lemma substring_0_prefix (t : string) : forall n,
  String.prefix (substring 0 n t) t = true.
Proof.
  induction t as [|c t IH]; intros [|n]; simpl; auto.
  destruct (ascii_dec c c) as [_|H]; [apply IH|contradiction].
Qed.

Lemma substring_0_whole (t : string) : forall n,
  (String.length t <= n)%nat -> substring 0 n t = t.
Proof.
  induction t as [|c t IH]; intros [|n] H; simpl in *; auto; try lia.
  rewrite IH by lia; reflexivity.
Qed.

Section EndpointProperties.
Variable fetchUp : list string -> string -> exc FetchResponse.
Variable upstream : list event -> string -> upcall -> exc Response.

Lemma availableModelsOf_gemini (k : string) (log : list string) :
  Forall (fun n => isGeminiName n = true) (fst (availableModelsOf fetchUp k log)).
Proof.
  unfold availableModelsOf, availableFetch, fbind, fetch, fret, lift.
  repeat (cbv beta iota;
          match goal with
          | |- context [match fetchUp ?l ?u with _ => _ end] => destruct (fetchUp l u)
          | |- context [match resp_ok ?r with _ => _ end] => destruct (resp_ok r)
          | |- context [match resp_json ?r with _ => _ end] => destruct (resp_json r)
          end);
    simpl; try constructor;
    apply Forall_forall; intros x Hx; apply filter_In in Hx; apply Hx.
Qed.

(** What a success entry carries. *)
Lemma testAll_spec (names : list string) : forall w,
  exists rs,
    testAll upstream names w
    = (Ok rs, mkWorld (cachedModelName w)
                (trace w ++ map (fun n => Call n (GenerateContent "Hi")) names))
    /\ map resultModel rs = names
    /\ (forall m r, In (TRSuccess m r) rs ->
          (String.length r <= 100)%nat
          /\ exists tr t, upstream tr m (GenerateContent "Hi") = Ok (RText t)
                          /\ String.prefix r t = true
                          /\ ((String.length t <= 100)%nat -> r = t)).
Proof.
  induction names as [|n rest IH]; intros w.
  - exists []; simpl; rewrite app_nil_r; split; [destruct w; reflexivity|].
    split; [reflexivity|intros m r []].
  - set (w1 := mkWorld (cachedModelName w) (trace w ++ [Call n (GenerateContent "Hi")])).
    assert (Hone : exists r1, testOne upstream n w = (Ok r1, w1)
                   /\ resultModel r1 = n
                   /\ (forall m r, r1 = TRSuccess m r ->
                         (String.length r <= 100)%nat
                         /\ exists tr t, upstream tr m (GenerateContent "Hi") = Ok (RText t)
                                         /\ String.prefix r t = true
                                         /\ ((String.length t <= 100)%nat -> r = t))).
    { unfold testOne, try_, bind, call, responseText.
      destruct (upstream (trace w) n (GenerateContent "Hi")) as [[t|e]|e] eqn:U;
        simpl; eexists; (split; [reflexivity|split; [reflexivity|]]);
        intros m r Hr; inversion Hr; subst.
      split; [rewrite substring_0_length; lia|].
      exists (trace w), t; split; [exact U|split].
      + apply substring_0_prefix.
      + intros Ht; apply substring_0_whole; exact Ht. }
    destruct Hone as (r1 & E1 & M1 & S1).
    destruct (IH w1) as (rs & E2 & M2 & S2).
    exists (r1 :: rs); simpl testAll; unfold bind; rewrite E1, E2.
    split; [subst w1; simpl; rewrite <- app_assoc; reflexivity|].
    split; [simpl; rewrite M1, M2; reflexivity|].
    intros m r [Hr|Hr]; [apply S1; exact Hr|apply S2; exact Hr].
Qed.

(** A [Failed to fetch models] answer of [/api/list-models] comes after
    both API versions were fetched, v1beta first, both answered not ok, and
    its details are the body text of the v1 answer. *)
Theorem listModels_fetch_failed (apiKey : option string) (log log' : list string)
    (details : string) :
  listModels fetchUp apiKey log = (LMFetchFailed details, log') ->
  exists k r1 r2,
    apiKey = Some k
    /\ log' = (log ++ [v1betaUrl k; v1Url k])%list
    /\ fetchUp log (v1betaUrl k) = Ok r1 /\ resp_ok r1 = false
    /\ fetchUp (log ++ [v1betaUrl k])%list (v1Url k) = Ok r2 /\ resp_ok r2 = false
    /\ resp_text r2 = Ok details.
Proof.
  unfold listModels; destruct apiKey as [k|]; [|discriminate].
  destruct (String.eqb k ""); [discriminate|].
  unfold listModelsFetch, fbind, fetch, fret, lift.
  destruct (fetchUp log (v1betaUrl k)) as [r1|e] eqn:F1; [|discriminate].
  destruct (resp_ok r1) eqn:O1; cbv beta iota.
  - rewrite O1; simpl negb; cbv iota.
    destruct (resp_json r1); discriminate.
  - destruct (fetchUp (log ++ [v1betaUrl k])%list (v1Url k)) as [r2|e] eqn:F2;
      [|discriminate].
    destruct (resp_ok r2) eqn:O2; simpl negb; cbv iota.
    + destruct (resp_json r2); discriminate.
    + destruct (resp_text r2) eqn:T2; intros H; inversion H; subst.
      exists k, r1, r2; rewrite <- app_assoc; auto 10.
Qed.

(** A successful listing of [/api/list-models] reports the API version it
    read (v1beta when that answered ok, else v1 after a not-ok v1beta),
    every listed model, their count, and each name with its "models/"
    prefix removed. *)
Theorem listModels_ok (apiKey : option string) (log log' : list string)
    (v : string) (n : nat) (ms : list (option string)) (names : list string)
    (sugg : string) :
  listModels fetchUp apiKey log = (LMOk v n ms names sugg, log') ->
  exists k r data,
    apiKey = Some k
    /\ resp_ok r = true /\ resp_json r = Ok data
    /\ ms = modelsOf data /\ n = length ms /\ names = map modelNameOf ms
    /\ ((v = "v1beta" /\ log' = (log ++ [v1betaUrl k])%list
         /\ fetchUp log (v1betaUrl k) = Ok r)
        \/ (v = "v1" /\ log' = (log ++ [v1betaUrl k; v1Url k])%list
            /\ (exists r1, fetchUp log (v1betaUrl k) = Ok r1 /\ resp_ok r1 = false)
            /\ fetchUp (log ++ [v1betaUrl k])%list (v1Url k) = Ok r)).
Proof.
  unfold listModels; destruct apiKey as [k|]; [|discriminate].
  destruct (String.eqb k ""); [discriminate|].
  unfold listModelsFetch, fbind, fetch, fret, lift.
  destruct (fetchUp log (v1betaUrl k)) as [r1|e] eqn:F1; [|discriminate].
  destruct (resp_ok r1) eqn:O1; cbv beta iota.
  - rewrite O1; simpl negb; cbv iota.
    destruct (resp_json r1) as [data|e] eqn:J; intros H; inversion H; subst.
    exists k, r1, data; rewrite length_map; auto 12.
  - destruct (fetchUp (log ++ [v1betaUrl k])%list (v1Url k)) as [r2|e] eqn:F2;
      [|discriminate].
    destruct (resp_ok r2) eqn:O2; simpl negb; cbv iota.
    + destruct (resp_json r2) as [data|e] eqn:J; intros H; inversion H; subst.
      exists k, r2, data; rewrite length_map.
      do 6 (split; [auto|]).
      right; rewrite <- app_assoc; split; [reflexivity|split; [reflexivity|]].
      split; [exists r1; auto|exact F2].
    + destruct (resp_text r2); discriminate.
Qed.

(** With a key, [/api/test-models] always answers 200: it calls
    [generateContent("Hi")] exactly once on each model it tests, in order,
    with no retry and no sleep, and leaves [cachedModelName] as it was.
    It tests at most five models: the first Gemini names the API listed,
    or the five default names when it listed none. *)
Theorem testModels_calls (k : string) (log : list string) (w : world) :
  k <> "" ->
  let avail := fst (availableModelsOf fetchUp k log) in
  exists results,
    testModels fetchUp upstream (Some k) log w
    = (TMOk avail results (summarize avail results),
       snd (availableModelsOf fetchUp k log),
       mkWorld (cachedModelName w)
         (trace w ++ map (fun n => Call n (GenerateContent "Hi")) (modelsToTest avail)))
    /\ map resultModel results = modelsToTest avail
    /\ (length (modelsToTest avail) <= 5)%nat
    /\ ((avail = [] /\ modelsToTest avail = defaultTestModels)
        \/ Forall (fun n => In n avail /\ includes n "gemini" = true /\ n <> "")
                  (modelsToTest avail)).
Proof.
  intros Hk avail.
  destruct (testAll_spec (modelsToTest avail) w) as (rs & E & Mrs & _).
  exists rs; split.
  - unfold testModels.
    apply String.eqb_neq in Hk; rewrite Hk.
    subst avail; destruct (availableModelsOf fetchUp k log) as [a log1]; simpl in E |- *.
    rewrite E; reflexivity.
  - split; [exact Mrs|].
    pose proof (availableModelsOf_gemini k log) as G; fold avail in G.
    unfold modelsToTest.
    destruct avail as [|a0 rest] eqn:A.
    + split; [simpl; lia|left; auto].
    + change (0 <? length (a0 :: rest))%nat with true; cbv iota.
      split; [rewrite length_firstn; lia|right].
      apply Forall_forall; intros x Hx.
      assert (Hin : In x (a0 :: rest)).
      { rewrite <- (firstn_skipn 5 (a0 :: rest)); apply in_or_app; left; exact Hx. }
      rewrite Forall_forall in G; specialize (G x Hin).
      unfold isGeminiName in G; apply andb_true_iff in G as [G1 G2].
      split; [exact Hin|split; [exact G2|]].
      intros ->; discriminate.
Qed.

(** Each successful test reports at most the first 100 characters of the
    text the model answered to "Hi", and the whole text when it is no
    longer than that. *)
Theorem testModels_success_truncated (apiKey : option string)
    (log log' : list string) (w w' : world) (avail : list string)
    (results : list TestResult) (s : TestModelsSummary) (m r : string) :
  testModels fetchUp upstream apiKey log w = (TMOk avail results s, log', w') ->
  In (TRSuccess m r) results ->
  (String.length r <= 100)%nat
  /\ exists tr t, upstream tr m (GenerateContent "Hi") = Ok (RText t)
                  /\ String.prefix r t = true
                  /\ ((String.length t <= 100)%nat -> r = t).
Proof.
  unfold testModels.
  destruct apiKey as [k|]; [|discriminate].
  destruct (String.eqb k ""); [discriminate|].
  destruct (availableModelsOf fetchUp k log) as [a log1].
  destruct (testAll_spec (modelsToTest a) w) as (rs & E & _ & S).
  rewrite E; intros H; inversion H; subst.
  apply S.
Qed.
End EndpointProperties.

Lemma retryWithBackoff_total_sleep_witness :
  sleptTotal (snd (retryWithBackoff logSleep
    (op_of (fun i => match i with
                     | O | S O => Exc (err "503 Service Unavailable")
                     | _ => Ok 7%nat
                     end)) 3 1000 []))
  = 1000 * (2 ^ Z.of_nat 2 - 1).
Proof.
  refine (proj1 (retryWithBackoff_total_sleep
            (fun i => match i with
                      | O | S O => Exc (err "503 Service Unavailable")
                      | _ => Ok 7%nat
                      end) 3 1000 2 _ _ _)).
  - lia.
  - intros i Hi; destruct i as [|[|i]]; [reflexivity|reflexivity|lia].
  - right; reflexivity.
Defined.

Lemma modelNameOf_strips_prefix_witness :
  modelNameOf (Some "gemini-pro") = "gemini-pro".
Proof.
  apply (proj1 (proj2 (modelNameOf_strips_prefix "gemini-pro"))).
  vm_compute; reflexivity.
Defined.

Lemma chat_keeps_cache_wellformed_witness :
  cacheWellFormed
    (snd (chat notFoundEverywhere (mkRequest (Some "hi") None) (Some "K")
            (mkWorld (Some "gemini-2.5-pro") []))).
Proof.
  apply (chat_keeps_cache_wellformed notFoundEverywhere
           (mkRequest (Some "hi") None) (Some "K") (mkWorld (Some "gemini-2.5-pro") [])).
  right; exists "gemini-2.5-pro"; split; [reflexivity|simpl; auto].
Defined.

Lemma primaryPath_calls_witness :
  exists rest,
    snd (primaryPath (answersWith "ok") "gemini-2.5-flash"
           (buildHistoryForGemini (Some [mkMessage "user" "hello"]) "hi") "hi"
           (mkWorld None []))
    = mkWorld None (Call "gemini-2.5-flash" (StartChat [mkTurn "user" "hello"]) :: rest).
Proof.
  destruct (primaryPath_calls (answersWith "ok") "gemini-2.5-flash"
              [mkMessage "user" "hello"] "hi" (mkWorld None []))
    as (new & E & _ & H).
  destruct H as (rest & Hn & _); [vm_compute; discriminate|].
  exists rest; rewrite E, Hn; reflexivity.
Defined.

Lemma listModels_fetch_failed_witness :
  exists k r2, Some "K" = Some k
               /\ refusingListing "denied" [v1betaUrl k] (v1Url k) = Ok r2
               /\ resp_text r2 = Ok "denied".
Proof.
  destruct (listModels_fetch_failed (refusingListing "denied") (Some "K") []
              [v1betaUrl "K"; v1Url "K"] "denied")
    as (k & r1 & r2 & Hk & _ & _ & _ & H2 & _ & Ht);
    [vm_compute; reflexivity|].
  exists k, r2; auto.
Defined.

Lemma listModels_ok_witness :
  exists r1, v1Listing [Some "models/gemini-a"; None] [] (v1betaUrl "K") = Ok r1
             /\ resp_ok r1 = false.
Proof.
  destruct (listModels_ok (v1Listing [Some "models/gemini-a"; None]) (Some "K") []
              [v1betaUrl "K"; v1Url "K"] "v1" 2 [Some "models/gemini-a"; None]
              ["gemini-a"; ""] "Try using one of these models: gemini-a, ")
    as (k & r & data & Hk & _ & _ & _ & _ & _ & [(Hv & _)|(_ & _ & H1 & _)]);
    [vm_compute; reflexivity|discriminate|].
  injection Hk as <-; exact H1.
Defined.

Lemma testModels_calls_witness :
  exists results, map resultModel results = ["gemini-a"].
Proof.
  destruct (testModels_calls (v1Listing [Some "models/gemini-a"; Some "models/embed"])
              (answersWith "hello") "K" [] (mkWorld None []))
    as (results & E & M & _); [discriminate|].
  exists results; rewrite M; vm_compute; reflexivity.
Defined.

Lemma testModels_success_truncated_witness :
  (String.length "hello" <= 100)%nat.
Proof.
  apply (proj1 (testModels_success_truncated
                  (v1Listing [Some "models/gemini-a"; Some "models/embed"])
                  (answersWith "hello") (Some "K") [] [v1betaUrl "K"; v1Url "K"]
                  (mkWorld None [])
                  (mkWorld None [Call "gemini-a" (GenerateContent "Hi")])
                  ["gemini-a"] [TRSuccess "gemini-a" "hello"]
                  (mkSummary 1 1 ["gemini-a"] "Use model: gemini-a")
                  "gemini-a" "hello" ltac:(vm_compute; reflexivity)
                  ltac:(left; reflexivity))).
Defined.
